(** * Wordcab transcribe: diarization reconciliation, parameter selection,
      transcription dispatch and early return.

    A shallow embedding of
    - [services/diarization/diarize_service.py] ([DiarizeService]),
    - [services/transcribe_service.py] ([TranscribeService]),
    - [utils.py] ([early_return]),
    and a model of the pool of model replicas, with the properties the
    specification states about them.

    Conventions of the embedding.
    - Python floats that carry times, durations and thresholds are exact
      rationals ([Q]): comparisons are the rational ones, [==] is [Qeq_bool],
      and [(a + b) / 2.0] is the exact midpoint.  Rounding, infinities and
      NaN are outside the model.
    - A Python list indexed and updated in place is a [list] read with
      stdpp's lookup [l !! i] and written with [<[i := x]> l]; an index the
      code would reject is an [IndexError].
    - A call that may raise returns a [result]; the error is either an
      exception raised by the interpreter itself ([Builtin]) or one raised
      by a [raise] statement of the program ([Raised]). *)

From Stdlib Require Import QArith Lqa Ascii String.
From Stdlib Require Import Qround.
From stdpp Require Import base list strings gmap pretty.

Set Default Proof Using "Type".

(** ** Errors *)

Inductive py_exn : Type :=
  | IndexError
  | KeyError
  | TypeError
  | ValueError.

Inductive error : Type :=
  | Builtin (e : py_exn)
  | Raised (msg : string).

Inductive result (A : Type) : Type :=
  | Ok (a : A)
  | Err (e : error).

Arguments Ok {A} a.
Arguments Err {A} e.

(** Sequencing stops at the first exception, as statements do; it is
    written with stdpp's [x ← r; k]. *)
#[global] Instance result_ret : MRet result := fun _ a => Ok a.
#[global] Instance result_bind : MBind result := fun _ _ k r =>
  match r with
  | Ok a => k a
  | Err e => Err e
  end.

#[global] Instance result_fmap : FMap result := fun _ _ f r =>
  match r with
  | Ok a => Ok (f a)
  | Err e => Err e
  end.

(** Code that also talks to a collaborator threads a state [S] (the
    collaborator's own state and the log of the calls made to it). *)
Definition prog (S A : Type) : Type := S -> result A * S.

#[global] Instance prog_ret {S : Type} : MRet (prog S) := fun _ a s => (Ok a, s).
#[global] Instance prog_bind {S : Type} : MBind (prog S) := fun _ _ k m s =>
  match m s with
  | (Ok a, s') => k a s'
  | (Err e, s') => (Err e, s')
  end.

Definition lift {S A : Type} (r : result A) : prog S A := fun s => (r, s).

(** [raise_explicit r] holds when [r] is an error coming from a [raise]
    statement, as opposed to one the interpreter raised on its own. *)
Definition raise_explicit {A : Type} (r : result A) : bool :=
  match r with
  | Err (Raised _) => true
  | _ => false
  end.

(** ** Rational comparisons as Python writes them *)

Definition Qgtb (a b : Q) : bool := negb (Qle_bool a b).
Definition Qltb (a b : Q) : bool := negb (Qle_bool b a).

(** ** Speaker segments *)

(** A stamp is the tuple [(start, end, speaker)]. *)
Abbreviation stamp := (Q * Q * Z)%type.

Definition st_start (s : stamp) : Q := fst (fst s).
Definition st_end (s : stamp) : Q := snd (fst s).
Definition st_speaker (s : stamp) : Z := snd s.

(** [adjacent R l]: every pair of neighbours of [l] is related by [R]. *)
Fixpoint adjacent (R : stamp -> stamp -> Prop) (l : list stamp) : Prop :=
  match l with
  | a :: (b :: _) as tl => R a b /\ adjacent R tl
  | _ => True
  end.

Definition by_start (a b : stamp) : Prop := (st_start a <= st_start b)%Q.
Definition by_end (a b : stamp) : Prop := (st_end a <= st_end b)%Q.
Definition no_overlap (a b : stamp) : Prop := (st_end a <= st_start b)%Q.
Definition same_turn (a b : stamp) : Prop :=
  (st_end a == st_start b)%Q /\ st_speaker a = st_speaker b.
Definition not_same_turn (a b : stamp) : Prop := ~ same_turn a b.
Definition well_formed (a : stamp) : Prop := (st_start a <= st_end a)%Q.

Module DiarizeService.

(** *** [get_contiguous_stamps]

    The loop [for i in range(len(stamps) - 1)] with its two pieces of
    state: the argument list, whose element [i + 1] is overwritten, and
    the list being built. *)
Fixpoint contiguous_loop (idx : list nat) (stamps acc : list stamp)
  : result (list stamp * list stamp) :=
  match idx with
  | [] => Ok (stamps, acc)
  | i :: idx' =>
      match stamps !! i, stamps !! (i + 1)%nat with
      | Some (start, end_, speaker), Some (next_start, next_end, next_speaker) =>
          if Qgtb end_ next_start then
            let avg := ((next_start + end_) / 2)%Q in
            contiguous_loop idx'
              (<[(i + 1)%nat := (avg, next_end, next_speaker)]> stamps)
              (acc ++ [(start, avg, speaker)])
          else
            contiguous_loop idx' stamps (acc ++ [(start, end_, speaker)])
      | _, _ => Err (Builtin IndexError)
      end
  end.

Definition get_contiguous_stamps (stamps : list stamp) : result (list stamp) :=
  '(stamps', contiguous_stamps) ←
     contiguous_loop (seq 0 (length stamps - 1)) stamps [];
  match last stamps' with
  | Some (start, end_, speaker) => Ok (contiguous_stamps ++ [(start, end_, speaker)])
  | None => Err (Builtin IndexError)
  end.

(** *** [merge_stamps] *)
Fixpoint merge_loop (idx : list nat) (stamps acc : list stamp)
  : result (list stamp * list stamp) :=
  match idx with
  | [] => Ok (stamps, acc)
  | i :: idx' =>
      match stamps !! i, stamps !! (i + 1)%nat with
      | Some (start, end_, speaker), Some (next_start, next_end, next_speaker) =>
          if Qeq_bool end_ next_start && Z.eqb speaker next_speaker then
            merge_loop idx'
              (<[(i + 1)%nat := (start, next_end, next_speaker)]> stamps) acc
          else
            merge_loop idx' stamps (acc ++ [(start, end_, speaker)])
      | _, _ => Err (Builtin IndexError)
      end
  end.

Definition merge_stamps (stamps : list stamp) : result (list stamp) :=
  '(stamps', overlap_stamps) ←
     merge_loop (seq 0 (length stamps - 1)) stamps [];
  match last stamps' with
  | Some (start, end_, speaker) => Ok (overlap_stamps ++ [(start, end_, speaker)])
  | None => Err (Builtin IndexError)
  end.

(** The two phases in the order [__call__] applies them. *)
Definition reconcile (clustering_outputs : list stamp) : result (list stamp) :=
  _outputs ← get_contiguous_stamps clustering_outputs;
  merge_stamps _outputs.

(** *** [__init__] *)

(** [zip(a, b, strict=True)] *)
Definition zip_strict {A B : Type} (a : list A) (b : list B) : result (list (A * B)) :=
  if (length a =? length b)%nat then Ok (zip a b) else Err (Builtin ValueError).

(** [{k: (w, s) for k, (w, s) in enumerate(zip(ws, ss, strict=True))}] *)
Definition scale_dict_of (ws ss : list Q) : result (gmap nat (Q * Q)) :=
  pairs ← zip_strict ws ss;
  Ok (map_seq 0 pairs).

(** [DiarizationModels]: the two networks are built for, and run on,
    [dm_device]; they are the collaborators [segmentation] and
    [clustering] below. *)
Record DiarizationModels : Type := {
  dm_device : string;
  dm_max_num_speakers : Z;
}.

Record t : Type := {
  device : string;
  models : gmap nat DiarizationModels;
  max_num_speakers : Z;
  default_window_lengths : list Q;
  default_shift_lengths : list Q;
  default_multiscale_weights : list Q;
  default_segmentation_batch_size : Z;
  default_scale_dict : gmap nat (Q * Q);
}.

Definition init (device : string) (device_index : list nat)
    (window_lengths shift_lengths multiscale_weights : list Q)
    (max_num_speakers : Z) : result t :=
  let default_segmentation_batch_size :=
    if (3 <? length multiscale_weights)%nat then 64%Z
    else if (1 <? length multiscale_weights)%nat then 128%Z
    else 256%Z in
  default_scale_dict ← scale_dict_of window_lengths shift_lengths;
  let models :=
    foldl (fun (models : gmap nat DiarizationModels) idx =>
             let _device :=
               if String.eqb device "cuda" then "cuda:" +:+ pretty idx else "cpu" in
             <[idx := {| dm_device := _device;
                         dm_max_num_speakers := max_num_speakers |}]> models)
          ∅ device_index in
  Ok {| device := device;
        models := models;
        max_num_speakers := max_num_speakers;
        default_window_lengths := window_lengths;
        default_shift_lengths := shift_lengths;
        default_multiscale_weights := multiscale_weights;
        default_segmentation_batch_size := default_segmentation_batch_size;
        default_scale_dict := default_scale_dict |}.

(** *** [__call__] *)

(** The [if]/[elif]/[else] on [audio_duration]: the scale dictionary, the
    segmentation batch size and the multiscale weights. *)
Definition select_parameters (self : t) (audio_duration : Q)
  : result (gmap nat (Q * Q) * Z * list Q) :=
  if Qltb audio_duration 3600 then
    Ok (default_scale_dict self,
        default_segmentation_batch_size self,
        default_multiscale_weights self)
  else if Qltb audio_duration 10800 then
    scale_dict ← scale_dict_of [3; 5 # 2; 2; 3 # 2; 1]%Q (default_shift_lengths self);
    Ok (scale_dict, 64%Z, default_multiscale_weights self)
  else
    scale_dict ← scale_dict_of [3; 2; 1]%Q [3 # 4; 1 # 2; 1 # 4]%Q;
    Ok (scale_dict, 32%Z, [1; 1; 1]%Q).

Section Call.
(** The waveform, the speech intervals of the VAD and the multiscale
    embeddings are opaque; the three networks are functions of what
    they are called with. *)
Context {Waveform Interval Embeddings : Type}.

Variable vad_service : Waveform -> list Interval.
Variable segmentation :
  DiarizationModels -> Waveform -> Z -> list Interval ->
  gmap nat (Q * Q) -> list Q -> Embeddings.
Variable clustering : DiarizationModels -> Embeddings -> Z -> list stamp.

(** One entry per call made to a collaborator, in order. *)
Inductive event : Type :=
  | CalledVad (waveform : Waveform)
  | CalledSegmentation (model : DiarizationModels) (batch_size : Z)
      (scale_dict : gmap nat (Q * Q)) (multiscale_weights : list Q)
  | CalledClustering (model : DiarizationModels) (oracle_num_speakers : Z).

Definition log (e : event) : prog (list event) unit :=
  fun calls => (Ok tt, calls ++ [e]).

(** [self.models[model_index]] *)
Definition get_model (self : t) (model_index : nat) : result DiarizationModels :=
  match models self !! model_index with
  | Some m => Ok m
  | None => Err (Builtin KeyError)
  end.

(** The result is [None] or a list of stamps. *)
Definition call (self : t) (waveform : Waveform) (audio_duration : Q)
    (oracle_num_speakers : Z) (model_index : nat)
  : prog (list event) (option (list stamp)) :=
  _ ← log (CalledVad waveform);
  let vad_outputs := vad_service waveform in
  if (length vad_outputs =? 0)%nat then
    mret None
  else
    '(scale_dict, segmentation_batch_size, multiscale_weights) ←
       lift (select_parameters self audio_duration);
    m ← lift (get_model self model_index);
    _ ← log (CalledSegmentation m segmentation_batch_size scale_dict
               multiscale_weights);
    let ms_emb_ts :=
      segmentation m waveform segmentation_batch_size vad_outputs
        scale_dict multiscale_weights in
    m ← lift (get_model self model_index);
    _ ← log (CalledClustering m oracle_num_speakers);
    let clustering_outputs := clustering m ms_emb_ts oracle_num_speakers in
    _outputs ← lift (get_contiguous_stamps clustering_outputs);
    outputs ← lift (merge_stamps _outputs);
    mret (Some outputs).
End Call.

End DiarizeService.

(** ** Strings as Python handles them

    Strings are sequences of ASCII characters.  [str.isspace] holds of the
    code points 9 to 13 and 28 to 32 in that range. *)

Definition is_space (c : ascii) : bool :=
  let n := nat_of_ascii c in
  ((9 <=? n)%nat && (n <=? 13)%nat) || ((28 <=? n)%nat && (n <=? 32)%nat).

Fixpoint lstrip_chars (l : list ascii) : list ascii :=
  match l with
  | c :: l' => if is_space c then lstrip_chars l' else l
  | [] => []
  end.

Definition strip_chars (l : list ascii) : list ascii :=
  reverse (lstrip_chars (reverse (lstrip_chars l))).

(** [s.strip()] *)
Definition strip (s : string) : string :=
  string_of_list_ascii (strip_chars (list_ascii_of_string s)).

(** [sep.join(ls)] is [String.concat sep ls]. *)
Definition join (sep : string) (ls : list string) : string := String.concat sep ls.

(** Truth value of a string: it is not empty. *)
Definition truthy (s : string) : bool :=
  match s with
  | EmptyString => false
  | String _ _ => true
  end.

Module TranscribeService.

(** *** What the transcription model returns

    [Word] and [Segment] are the model's named tuples; of a segment only
    the fields this service reads are kept ([_asdict] carries the others
    along unchanged).  [seg_words] is [None] when the model was asked for
    no word timestamps. *)
Record Word : Type := {
  w_start : Q;
  w_end : Q;
  w_word : string;
  w_probability : Q;
}.

Record Segment : Type := {
  seg_start : Q;
  seg_end : Q;
  seg_text : string;
  seg_words : option (list Word);
}.

Record vad_options : Type := {
  threshold : Q;
  min_speech_duration_ms : Z;
  min_silence_duration_ms : Z;
  speech_pad_ms : Z;
  window_size_samples : Z;
}.

(** The keyword arguments of [self.model.transcribe]; [vad_parameters] is
    [None] when the call does not pass it. *)
Record transcribe_kwargs : Type := {
  language : string;
  initial_prompt : option string;
  kw_repetition_penalty : Q;
  kw_compression_ratio_threshold : Q;
  kw_log_prob_threshold : Q;
  kw_no_speech_threshold : Q;
  kw_condition_on_previous_text : bool;
  kw_suppress_blank : bool;
  kw_word_timestamps : bool;
  vad_filter : bool;
  vad_parameters : option vad_options;
}.

Definition the_vad_parameters : vad_options :=
  {| threshold := 1 # 2;
     min_speech_duration_ms := 250;
     min_silence_duration_ms := 100;
     speech_pad_ms := 30;
     window_size_samples := 512 |}.

(** *** What the service returns *)
Record word_dict : Type := {
  wd_start : Q;
  wd_end : Q;
  wd_word : string;
  wd_score : Q;
}.

Record segment_dict : Type := {
  sd_start : Q;
  sd_end : Q;
  sd_text : string;
  sd_words : list word_dict;
  sd_speaker : nat;
}.

Inductive outputs : Type :=
  | Transcript (segments : list Segment)
  | PerChannel (channels : list (list segment_dict)).

(** The arguments of [__call__] other than the audio. *)
Record call_args : Type := {
  source_lang : string;
  model_index : nat;
  suppress_blank : bool;
  vocab : option (list string);
  word_timestamps : bool;
  internal_vad : bool;
  repetition_penalty : Q;
  compression_ratio_threshold : Q;
  log_prob_threshold : Q;
  no_speech_threshold : Q;
  condition_on_previous_text : bool;
}.

Definition with_vocab (v : option (list string)) (a : call_args) : call_args :=
  {| source_lang := source_lang a;
     model_index := model_index a;
     suppress_blank := suppress_blank a;
     vocab := v;
     word_timestamps := word_timestamps a;
     internal_vad := internal_vad a;
     repetition_penalty := repetition_penalty a;
     compression_ratio_threshold := compression_ratio_threshold a;
     log_prob_threshold := log_prob_threshold a;
     no_speech_threshold := no_speech_threshold a;
     condition_on_previous_text := condition_on_previous_text a |}.

(** The prompt [__call__] computes before anything else. *)
Definition build_prompt (vocab : option (list string)) : option string :=
  match vocab with
  | Some ((v0 :: _) as vocab) =>
      if truthy (strip v0) then
        let words := join ", " vocab in
        Some ("Vocab: " +:+ strip words)
      else None
  | _ => None
  end.

(** The body of [for word in segment.words] and the two indexings that
    follow it, for one segment. *)
Definition word_dict_of (word : Word) : word_dict :=
  {| wd_start := w_start word;
     wd_end := w_end word;
     wd_word := w_word word;
     wd_score := w_probability word |}.

Definition segment_dict_of (speaker_id : nat) (segment : Segment) : result segment_dict :=
  match seg_words segment with
  | None => Err (Builtin TypeError)
  | Some segment_words =>
      let words := map word_dict_of segment_words in
      match head words, last words with
      | Some first, Some final =>
          Ok {| sd_start := wd_start first;
                sd_end := wd_end final;
                sd_text := seg_text segment;
                sd_words := words;
                sd_speaker := speaker_id |}
      | _, _ => Err (Builtin IndexError)
      end
  end.

Fixpoint segments_loop (speaker_id : nat) (segments : list Segment)
    (final_transcript : list segment_dict) : result (list segment_dict) :=
  match segments with
  | [] => Ok final_transcript
  | segment :: segments' =>
      d ← segment_dict_of speaker_id segment;
      segments_loop speaker_id segments' (final_transcript ++ [d])
  end.

Section Model.
(** The audio is opaque.  The model is a collaborator with a state of
    its own: what it returns may differ from one call to the next, and
    it may raise. *)
Context {Audio ModelState : Type}.

Variable transcribe :
  ModelState -> Audio -> transcribe_kwargs -> result (list Segment) * ModelState.

Record world : Type := {
  model_state : ModelState;
  calls : list (Audio * transcribe_kwargs);
}.

(** [self.model.transcribe(audio, **kwargs)], logged. *)
Definition model_transcribe (audio : Audio) (kwargs : transcribe_kwargs)
  : prog world (list Segment) :=
  fun w =>
    let '(r, ms) := transcribe (model_state w) audio kwargs in
    (r, {| model_state := ms; calls := calls w ++ [(audio, kwargs)] |}).

Definition multi_channel (audio : Audio) (source_lang : string)
    (speaker_id : nat) (suppress_blank word_timestamps internal_vad : bool)
    (repetition_penalty compression_ratio_threshold log_prob_threshold
       no_speech_threshold : Q)
    (condition_on_previous_text : bool) (prompt : option string)
  : prog world (list segment_dict) :=
  segments ← model_transcribe audio
    {| language := source_lang;
       initial_prompt := prompt;
       kw_repetition_penalty := repetition_penalty;
       kw_compression_ratio_threshold := compression_ratio_threshold;
       kw_log_prob_threshold := log_prob_threshold;
       kw_no_speech_threshold := no_speech_threshold;
       kw_condition_on_previous_text := condition_on_previous_text;
       kw_suppress_blank := suppress_blank;
       kw_word_timestamps := word_timestamps;
       vad_filter := internal_vad;
       vad_parameters := Some the_vad_parameters |};
  lift (segments_loop speaker_id segments []).

(** [for audio_index, audio_file in enumerate(audio)]; the call leaves
    [condition_on_previous_text] to its default in [multi_channel]. *)
Fixpoint channels_loop (a : call_args) (prompt : option string)
    (audio_index : nat) (audio : list Audio)
    (outputs : list (list segment_dict))
  : prog world (list (list segment_dict)) :=
  match audio with
  | [] => mret outputs
  | audio_file :: audio' =>
      channel ← multi_channel audio_file (source_lang a) audio_index
        (suppress_blank a) (word_timestamps a) (internal_vad a)
        (repetition_penalty a) (compression_ratio_threshold a)
        (log_prob_threshold a) (no_speech_threshold a) false prompt;
      channels_loop a prompt (S audio_index) audio' (outputs ++ [channel])
  end.

(** The audio argument: one recording, or a list of channels. *)
Inductive audio_arg : Type :=
  | Single (audio : Audio)
  | Channels (audio : list Audio).

(** [__call__] *)
Definition call (audio : audio_arg) (a : call_args) : prog world outputs :=
  let prompt := build_prompt (vocab a) in
  match audio with
  | Single audio =>
      segments ← model_transcribe audio
        {| language := source_lang a;
           initial_prompt := prompt;
           kw_repetition_penalty := repetition_penalty a;
           kw_compression_ratio_threshold := compression_ratio_threshold a;
           kw_log_prob_threshold := log_prob_threshold a;
           kw_no_speech_threshold := no_speech_threshold a;
           kw_condition_on_previous_text := condition_on_previous_text a;
           kw_suppress_blank := suppress_blank a;
           kw_word_timestamps := word_timestamps a;
           vad_filter := internal_vad a;
           vad_parameters := Some the_vad_parameters |};
      segments ←
        match segments with
        | [] =>
            model_transcribe audio
              {| language := source_lang a;
                 initial_prompt := prompt;
                 kw_repetition_penalty := repetition_penalty a;
                 kw_compression_ratio_threshold := compression_ratio_threshold a;
                 kw_log_prob_threshold := log_prob_threshold a;
                 kw_no_speech_threshold := no_speech_threshold a;
                 kw_condition_on_previous_text := condition_on_previous_text a;
                 kw_suppress_blank := false;
                 kw_word_timestamps := true;
                 vad_filter := if internal_vad a then false else true;
                 vad_parameters := None |}
        | _ => mret segments
        end;
      mret (Transcript segments)
  | Channels audio =>
      outputs ← channels_loop a prompt 0 audio [];
      mret (PerChannel outputs)
  end.

End Model.

End TranscribeService.

Module Utils.

(** *** [early_return] *)
Record utterance : Type := {
  text : string;
  start : Q;
  end_ : Q;
  speaker : option Z;
  words : option (list TranscribeService.word_dict);
}.

Record process_times : Type := {
  total : Q;
  transcription : Q;
  diarization : option Q;
  post_processing : Q;
}.

Definition early_return (duration : Q) : list utterance * process_times * Q :=
  ([ {| text := "<EMPTY AUDIO>";
        start := 0;
        end_ := duration;
        speaker := None;
        words := None |} ],
   {| total := 0;
      transcription := 0;
      diarization := None;
      post_processing := 0 |},
   duration).

(** *** Characters and substrings, over ASCII *)

Definition is_lower (c : ascii) : bool :=
  let n := nat_of_ascii c in (97 <=? n)%nat && (n <=? 122)%nat.

(** [c.upper()] for one character. *)
Definition upper (c : ascii) : ascii :=
  if is_lower c then ascii_of_nat (nat_of_ascii c - 32) else c.

(** The characters the pattern [\w] matches: letters, digits and [_]. *)
Definition is_word (c : ascii) : bool :=
  let n := nat_of_ascii c in
  ((48 <=? n)%nat && (n <=? 57)%nat) || ((65 <=? n)%nat && (n <=? 90)%nat)
  || ((97 <=? n)%nat && (n <=? 122)%nat) || (n =? 95)%nat.

Fixpoint starts_with (p l : list ascii) : bool :=
  match p, l with
  | [], _ => true
  | a :: p', b :: l' => Ascii.eqb a b && starts_with p' l'
  | _ :: _, [] => false
  end.

(** [text.replace(old, new)]: the occurrences of [old] are found from the
    left and do not overlap; [skip] counts the characters of an occurrence
    still to pass over. *)
Fixpoint replace_go (old new : list ascii) (skip : nat) (l : list ascii)
  : list ascii :=
  match l with
  | [] => []
  | c :: l' =>
      match skip with
      | S k => replace_go old new k l'
      | O =>
          if starts_with old l
          then new ++ replace_go old new (length old - 1) l'
          else c :: replace_go old new 0 l'
      end
  end.

Definition replace_chars (old new l : list ascii) : list ascii :=
  match old with
  | [] => new ++ flat_map (fun c => c :: new) l
  | _ :: _ => replace_go old new 0 l
  end.

Definition replace (old new text : string) : string :=
  string_of_list_ascii
    (replace_chars (list_ascii_of_string old) (list_ascii_of_string new)
       (list_ascii_of_string text)).

(** [re.sub(r"\s+", repl, text)]: every run of whitespace becomes [repl]. *)
Fixpoint sub_spaces_go (repl : list ascii) (in_run : bool) (l : list ascii)
  : list ascii :=
  match l with
  | [] => []
  | c :: l' =>
      if is_space c then
        if in_run then sub_spaces_go repl true l'
        else repl ++ sub_spaces_go repl true l'
      else c :: sub_spaces_go repl false l'
  end.

Definition sub_spaces (repl text : string) : string :=
  string_of_list_ascii
    (sub_spaces_go (list_ascii_of_string repl) false (list_ascii_of_string text)).

(** [re.sub(r"\bi\b", "I", text)]: an [i] with no word character before
    it and none after it becomes [I]. *)
Fixpoint sub_lone_i_go (prev_word : bool) (l : list ascii) : list ascii :=
  match l with
  | [] => []
  | c :: l' =>
      let next_word := match l' with d :: _ => is_word d | [] => false end in
      (if Ascii.eqb c "i" && negb prev_word && negb next_word
       then "I"%char else c)
        :: sub_lone_i_go (is_word c) l'
  end.

Definition sub_lone_i (text : string) : string :=
  string_of_list_ascii (sub_lone_i_go false (list_ascii_of_string text)).

(** [text[0]] and [text[-1]] *)
Definition first_char (text : string) : result ascii :=
  match list_ascii_of_string text with
  | c :: _ => Ok c
  | [] => Err (Builtin IndexError)
  end.

Definition last_char (text : string) : result ascii :=
  match last (list_ascii_of_string text) with
  | Some c => Ok c
  | None => Err (Builtin IndexError)
  end.

(** [text[1:]] *)
Definition from_1 (text : string) : string :=
  match text with
  | String _ rest => rest
  | EmptyString => EmptyString
  end.

(** *** [is_empty_string] *)
Definition is_empty_string (text : string) : bool :=
  let text := replace "." "" text in
  let text := sub_spaces "" text in
  if truthy (strip text) then false else true.

(** *** [format_punct] *)
Definition format_punct (text : string) : result string :=
  let text := strip text in
  first ← first_char text;
  let text :=
    if is_lower first then String (upper first) (from_1 text) else text in
  final ← last_char text;
  let text :=
    if bool_decide (final ∈ ["."; "?"; "!"; ":"; ";"; ","]%char)
    then text else text +:+ "." in
  let text := replace "..." "" text in
  let text := replace " ?" "?" text in
  let text := replace " !" "!" text in
  let text := replace " ." "." text in
  let text := replace " ," "," text in
  let text := replace " :" ":" text in
  let text := replace " ;" ";" text in
  let text := sub_spaces " " text in
  let text := sub_lone_i text in
  Ok (strip text).

(** *** [get_segment_timestamp_anchor] *)
Definition get_segment_timestamp_anchor (start end_ : Q) (option : string) : Q :=
  if String.eqb option "end" then end_
  else if String.eqb option "mid" then ((start + end_) / 2)%Q
  else start.

(** *** Timestamps *)

(** [divmod(x, y)] on floats: the quotient is the floor of [x / y]. *)
Definition divmod (x y : Q) : Q * Q :=
  let q := inject_Z (Qfloor (x / y)) in (q, (x - q * y)%Q).

(** [int(x)] truncates towards zero. *)
Definition py_int (x : Q) : Z :=
  if Qle_bool 0 x then Qfloor x else Qceiling x.

(** The format [:02] of an integer: at least two characters, padded with
    zeros, the sign counted. *)
Definition format_02 (n : Z) : string :=
  if (0 <=? n)%Z && (n <? 10)%Z then "0" +:+ pretty n else pretty n.

Definition _convert_s_to_ms (timestamp : Q) : Q := (timestamp * 1000)%Q.

Definition _convert_s_to_hms (timestamp : Q) : string :=
  let '(hours, remainder) := divmod timestamp 3600 in
  let '(minutes, seconds) := divmod remainder 60 in
  format_02 (py_int hours) +:+ ":" +:+ format_02 (py_int minutes) +:+ ":"
    +:+ format_02 (py_int seconds) +:+ ".000".

(** What [convert_timestamp] returns: a number or a text. *)
Inductive converted : Type :=
  | Number (x : Q)
  | Text (s : string).

(** What [format_segments] returns for one segment; [fs_words] is [None]
    when the dictionary has no ["words"] key. *)
Record formatted_segment : Type := {
  fs_start : Q;
  fs_end : Q;
  fs_text : string;
  fs_words : option (list TranscribeService.word_dict);
}.

Section Rounding.
(** [round(x, ndigits)] is left open: it rounds a float to decimal digits
    and is not a function of the exact value alone. *)
Variable py_round : Q -> option Z -> Q.

Definition convert_timestamp (timestamp : Q) (target : string)
    (round_digits : option Z) : result converted :=
  if String.eqb target "ms" then
    Ok (Number (py_round (_convert_s_to_ms timestamp) round_digits))
  else if String.eqb target "hms" then
    Ok (Text (_convert_s_to_hms timestamp))
  else if String.eqb target "s" then
    Ok (Number (py_round timestamp round_digits))
  else
    Err (Raised ("Invalid conversion target: " +:+ target
                 +:+ ". Valid targets are: ms, hms, s.")).

(** *** [format_segments] *)
Definition format_word (word : TranscribeService.Word)
  : TranscribeService.word_dict :=
  {| TranscribeService.wd_start := TranscribeService.w_start word;
     TranscribeService.wd_end := TranscribeService.w_end word;
     TranscribeService.wd_word := strip (TranscribeService.w_word word);
     TranscribeService.wd_score :=
       py_round (TranscribeService.w_probability word) (Some 2%Z) |}.

Definition format_segment (word_timestamps : bool)
    (segment : TranscribeService.Segment) : result formatted_segment :=
  if word_timestamps then
    match TranscribeService.seg_words segment with
    | Some segment_words =>
        Ok {| fs_start := TranscribeService.seg_start segment;
              fs_end := TranscribeService.seg_end segment;
              fs_text := strip (TranscribeService.seg_text segment);
              fs_words := Some (map format_word segment_words) |}
    | None => Err (Builtin TypeError)
    end
  else
    Ok {| fs_start := TranscribeService.seg_start segment;
          fs_end := TranscribeService.seg_end segment;
          fs_text := strip (TranscribeService.seg_text segment);
          fs_words := None |}.

Fixpoint format_segments_loop (word_timestamps : bool)
    (segments : list TranscribeService.Segment)
    (formatted_segments : list formatted_segment)
  : result (list formatted_segment) :=
  match segments with
  | [] => Ok formatted_segments
  | segment :: segments' =>
      segment_dict ← format_segment word_timestamps segment;
      format_segments_loop word_timestamps segments'
        (formatted_segments ++ [segment_dict])
  end.

Definition format_segments (segments : list TranscribeService.Segment)
    (word_timestamps : bool) : result (list formatted_segment) :=
  format_segments_loop word_timestamps segments [].
End Rounding.

End Utils.

Module Models.

(** *** The validators of the request models *)

(** [validate_timestamps_values] of [BaseRequest] and [CortexPayload]. *)
Definition validate_timestamps_values (value : string) : result string :=
  if bool_decide (value ∈ ["hms"; "ms"; "s"]) then Ok value
  else Err (Raised "`timestamps` must be one of 'hms', 'ms', 's'.").

(** [validate_url_type] of [CortexPayload]. *)
Definition validate_url_type (value : string) : result string :=
  if bool_decide (value ∈ ["audio_url"; "youtube"]) then Ok value
  else Err (Raised "`url_type` must be one of 'audio_url', 'youtube'.").

End Models.

Module DeviceModelPool.

(** Modelled from the spec: the pool of model replicas of section 4.1,
    whose code is not among the sources.  The replicas are the configured
    device indices, fixed at construction; every outstanding lease (a
    PoolSlot) names the replica it is a lease on. *)
Record pool : Type := {
  replicas : gset nat;
  leases : list nat;
}.

(** Modelled from the spec: construction from the configured device index
    list; no lease is outstanding. *)
Definition create (device_index : list nat) : pool :=
  {| replicas := list_to_set device_index; leases := [] |}.

(** Modelled from the spec: a replica is free when it belongs to the pool
    and no lease on it is outstanding. *)
Definition is_free (p : pool) (r : nat) : bool :=
  bool_decide (r ∈ replicas p) && bool_decide (r ∉ leases p).

(** Modelled from the spec: [acquire] grants a lease on a free replica [r],
    whichever the scheduler picks; on a replica that is not free it does
    not return (the job stays suspended), which is [None] here. *)
Definition acquire (r : nat) (p : pool) : option pool :=
  if is_free p r then Some {| replicas := replicas p; leases := r :: leases p |}
  else None.

(** Modelled from the spec: [release] returns the replica of the slot to
    the free set; releasing a slot that is not held (a second release) is
    an error. *)
Definition release (slot : nat) (p : pool) : result pool :=
  if bool_decide (slot ∈ leases p) then
    Ok {| replicas := replicas p;
          leases := list_difference (leases p) [slot] |}
  else Err (Raised "release of a slot that is not held").

(** Modelled from the spec: jobs run concurrently and each [acquire] and
    [release] takes effect atomically, so an execution is an interleaving
    of such steps in any order. *)
Inductive step : pool -> pool -> Prop :=
  | step_acquire (p p' : pool) (r : nat) :
      acquire r p = Some p' -> step p p'
  | step_release (p p' : pool) (slot : nat) :
      release slot p = Ok p' -> step p p'
  | step_release_error (p : pool) (slot : nat) (e : error) :
      release slot p = Err e -> step p p.

(** Modelled from the spec: the states a pool built from [device_index]
    can be in, at any instant of any execution. *)
Definition reachable (device_index : list nat) (p : pool) : Prop :=
  rtc step (create device_index) p.

End DeviceModelPool.

(** ** The two loops as recursions on the list

    [contiguous_from cur rest] is what the first loop emits once it holds
    the (possibly rewritten) stamp [cur] and has [rest] still to read;
    [merge_from] is the same for the second loop.  Both are shown below
    to compute what the index loops compute. *)
Fixpoint contiguous_from (cur : stamp) (rest : list stamp) : list stamp :=
  match rest with
  | [] => [cur]
  | nxt :: rest' =>
      if Qgtb (st_end cur) (st_start nxt) then
        let avg := ((st_start nxt + st_end cur) / 2)%Q in
        (st_start cur, avg, st_speaker cur)
          :: contiguous_from (avg, st_end nxt, st_speaker nxt) rest'
      else cur :: contiguous_from nxt rest'
  end.

Fixpoint merge_from (cur : stamp) (rest : list stamp) : list stamp :=
  match rest with
  | [] => [cur]
  | nxt :: rest' =>
      if Qeq_bool (st_end cur) (st_start nxt)
         && Z.eqb (st_speaker cur) (st_speaker nxt) then
        merge_from (st_start cur, st_end nxt, st_speaker nxt) rest'
      else cur :: merge_from nxt rest'
  end.

(** ** The prompt as the specification words it

    The non-empty strings of the vocabulary joined by [", "] behind
    ["Vocab: "], and no prompt when the vocabulary is absent, empty or
    made of whitespace only.  It is compared with [build_prompt] below. *)
Definition blank (s : string) : bool := negb (truthy (strip s)).

Definition claimed_prompt (vocab : option (list string)) : option string :=
  match vocab with
  | None => None
  | Some l =>
      if forallb blank l then None
      else Some ("Vocab: " +:+ join ", " (filter (fun s => truthy s = true) l))
  end.

(** A string is tidy when it is not empty and has no whitespace at either
    end. *)
Definition tidy (s : string) : Prop := s <> "" /\ strip s = s.

(** ** Test doubles for the transcription model

    The audio is [unit] and the state of the model counts the calls made
    to it. *)
Module Stub.
Import TranscribeService.

Definition word (s e : Q) (text : string) : Word :=
  {| w_start := s; w_end := e; w_word := text; w_probability := 9 # 10 |}.

Definition hello : Segment :=
  {| seg_start := 0; seg_end := 2; seg_text := " hello there";
     seg_words := Some [word (1 # 2) 1 " hello"; word 1 (3 # 2) " there"] |}.

Definition bye : Segment :=
  {| seg_start := 2; seg_end := 3; seg_text := " bye";
     seg_words := Some [word (9 # 4) (5 # 2) " bye"] |}.

Definition wordless : Segment :=
  {| seg_start := 3; seg_end := 4; seg_text := ""; seg_words := Some [] |}.

(** Never hears anything. *)
Definition silent (n : nat) (_ : unit) (_ : transcribe_kwargs)
  : result (list Segment) * nat :=
  (Ok [], S n).

(** Returns nothing on its first call and two segments afterwards. *)
Definition second_try (n : nat) (_ : unit) (_ : transcribe_kwargs)
  : result (list Segment) * nat :=
  (if (n =? 0)%nat then Ok [] else Ok [hello; bye], S n).

(** Returns a segment that has no word. *)
Definition malformed (n : nat) (_ : unit) (_ : transcribe_kwargs)
  : result (list Segment) * nat :=
  (Ok [hello; wordless; bye], S n).

Definition fresh : world (Audio := unit) (ModelState := nat) :=
  {| model_state := 0%nat; calls := [] |}.

(** The defaults of [__call__] for English on model 0, with the given
    [internal_vad]. *)
Definition args (internal_vad : bool) : call_args :=
  {| source_lang := "en";
     model_index := 0;
     suppress_blank := false;
     vocab := None;
     word_timestamps := true;
     internal_vad := internal_vad;
     repetition_penalty := 1;
     compression_ratio_threshold := 12 # 5;
     log_prob_threshold := - (1);
     no_speech_threshold := 3 # 5;
     condition_on_previous_text := true |}.
End Stub.

(** [pairs_scales d ws ss]: the scale dictionary [d] maps each index to
    the window length and the shift length at that index, and nothing
    else. *)
Definition pairs_scales (d : gmap nat (Q * Q)) (ws ss : list Q) : Prop :=
  forall k : nat,
    d !! k = match ws !! k, ss !! k with
             | Some w, Some s => Some (w, s)
             | _, _ => None
             end.

(** ** Predicates and tactics of the proofs *)

(** What one emitted dictionary owes to the segment it comes from. *)
Definition emitted_from (speaker_id : nat) (segment : TranscribeService.Segment)
    (d : TranscribeService.segment_dict) : Prop :=
  exists words first final,
    TranscribeService.seg_words segment = Some words
    /\ head words = Some first
    /\ last words = Some final
    /\ TranscribeService.sd_start d = TranscribeService.w_start first
    /\ TranscribeService.sd_end d = TranscribeService.w_end final
    /\ TranscribeService.sd_text d = TranscribeService.seg_text segment
    /\ TranscribeService.sd_words d = map TranscribeService.word_dict_of words
    /\ TranscribeService.sd_speaker d = speaker_id.

(** What every reachable pool satisfies. *)
Definition pool_invariant (device_index : list nat) (p : DeviceModelPool.pool) : Prop :=
  DeviceModelPool.replicas p = list_to_set device_index
  /\ NoDup (DeviceModelPool.leases p)
  /\ (forall r, r ∈ DeviceModelPool.leases p -> r ∈ DeviceModelPool.replicas p).

(** Linear arithmetic over the fields of stamps; the midpoint is a
    multiplication by one half. *)
Ltac stamp_arith :=
  cbn [st_start st_end st_speaker fst snd] in *;
  unfold Qdiv in *; change (/ 2)%Q with (1 # 2)%Q in *;
  lra.

(** Hypotheses on a list of stamps written out in full. *)
Ltac concrete_stamps :=
  cbv [adjacent by_start by_end no_overlap not_same_turn same_turn well_formed
       st_start st_end st_speaker fst snd];
  repeat match goal with
         | |- _ /\ _ => split
         | |- Forall _ _ => constructor
         | |- ~ _ => intros [? ?]
         | |- _ <> _ => discriminate
         | |- True => exact I
         end;
  try discriminate; try lra.

(** ** Predicates of the further properties *)

(** [inside i o]: the stamp [o] has the speaker of [i], starts no earlier
    and ends no later. *)
Definition inside (i o : stamp) : Prop :=
  (st_start i <= st_start o)%Q /\ (st_end o <= st_end i)%Q
  /\ st_speaker o = st_speaker i.

(** A segment has words when its list of words is there and not empty. *)
Definition has_words (s : TranscribeService.Segment) : Prop :=
  exists w ws, TranscribeService.seg_words s = Some (w :: ws).


(** [spaced l]: the only whitespace of [l] is the space character, and
    no two whitespace characters are next to each other. *)
Fixpoint spaced (l : list ascii) : Prop :=
  match l with
  | [] => True
  | a :: tl =>
      (is_space a = true ->
       a = " "%char
       /\ match tl with b :: _ => is_space b = false | [] => True end)
      /\ spaced tl
  end.

(** What a formatted segment owes to the segment it comes from; [words]
    is what its ["words"] entry holds, if it has one. *)
Definition formatted_from (py_round : Q -> option Z -> Q) (word_timestamps : bool)
    (segment : TranscribeService.Segment) (d : Utils.formatted_segment) : Prop :=
  Utils.fs_start d = TranscribeService.seg_start segment
  /\ Utils.fs_end d = TranscribeService.seg_end segment
  /\ Utils.fs_text d = strip (TranscribeService.seg_text segment)
  /\ strip (Utils.fs_text d) = Utils.fs_text d
  /\ (word_timestamps = false -> Utils.fs_words d = None)
  /\ (word_timestamps = true ->
      exists words,
        TranscribeService.seg_words segment = Some words
        /\ Utils.fs_words d = Some (map (Utils.format_word py_round) words)).


(** * Properties *)

(** ** Rational comparisons *)

Lemma Qgtb_true (a b : Q) : Qgtb a b = true <-> (b < a)%Q.
Proof.
  unfold Qgtb. rewrite negb_true_iff.
  destruct (Qle_bool a b) eqn:E.
  - apply Qle_bool_iff in E. split; [discriminate | intros H; lra].
  - split; [intros _ | reflexivity].
    apply Qnot_le_lt. intros H. apply Qle_bool_iff in H. congruence.
Qed.

Lemma Qgtb_false (a b : Q) : Qgtb a b = false <-> (a <= b)%Q.
Proof.
  unfold Qgtb. rewrite negb_false_iff. apply Qle_bool_iff.
Qed.

Lemma Qltb_true (a b : Q) : Qltb a b = true <-> (a < b)%Q.
Proof. apply (Qgtb_true b a). Qed.

Lemma Qltb_false (a b : Q) : Qltb a b = false <-> (b <= a)%Q.
Proof. apply (Qgtb_false b a). Qed.

(** ** Neighbours *)

Lemma adjacent_tail (R : stamp -> stamp -> Prop) (a : stamp) (l : list stamp) :
  adjacent R (a :: l) -> adjacent R l.
Proof. destruct l; simpl; tauto. Qed.

Lemma adjacent_cons (R : stamp -> stamp -> Prop) (a : stamp) (l : list stamp) :
  (forall b, head l = Some b -> R a b) -> adjacent R l -> adjacent R (a :: l).
Proof. destruct l; simpl; auto. Qed.

(** The recursive reading and the one by positions agree. *)
Lemma adjacent_lookup (R : stamp -> stamp -> Prop) (l : list stamp) :
  adjacent R l <->
  (forall (i : nat) (a b : stamp), l !! i = Some a -> l !! S i = Some b -> R a b).
Proof.
  induction l as [|x l IH]; [simpl; split; [intros _ i a b H; discriminate | auto]|].
  split.
  - intros H i a b Ha Hb. destruct i as [|i].
    + destruct l as [|y l]; [discriminate|].
      simpl in *. injection Ha as <-. injection Hb as <-. tauto.
    + apply adjacent_tail in H. apply (proj1 IH H i a b Ha Hb).
  - intros H. apply adjacent_cons.
    + intros b Hb. apply (H 0%nat x b); [reflexivity|].
      destruct l; [discriminate|exact Hb].
    + apply IH. intros i a b Ha Hb. apply (H (S i) a b Ha Hb).
Qed.

(** ** The index loops compute the recursions *)

Lemma lookup_middle_next {A : Type} (pre : list A) (x y : A) (l : list A) :
  (pre ++ x :: y :: l) !! (length pre + 1)%nat = Some y.
Proof.
  replace (pre ++ x :: y :: l) with ((pre ++ [x]) ++ y :: l)
    by (rewrite <- app_assoc; reflexivity).
  replace (length pre + 1)%nat with (length (pre ++ [x]))
    by (rewrite length_app; reflexivity).
  apply list_lookup_middle. reflexivity.
Qed.

Lemma insert_middle_next {A : Type} (pre : list A) (x y z : A) (l : list A) :
  <[(length pre + 1)%nat := z]> (pre ++ x :: y :: l) = (pre ++ [x]) ++ z :: l.
Proof.
  replace (pre ++ x :: y :: l) with ((pre ++ [x]) ++ y :: l)
    by (rewrite <- app_assoc; reflexivity).
  replace (length pre + 1)%nat with (length (pre ++ [x]) + 0)%nat
    by (rewrite length_app; simpl; lia).
  rewrite insert_app_r. reflexivity.
Qed.

Lemma contiguous_loop_spec (rest pre : list stamp) (cur : stamp) (acc : list stamp) :
  exists stamps' acc' final,
    DiarizeService.contiguous_loop (seq (length pre) (length rest))
      (pre ++ cur :: rest) acc = Ok (stamps', acc')
    /\ last stamps' = Some final
    /\ acc' ++ [final] = acc ++ contiguous_from cur rest.
Proof.
  revert pre cur acc.
  induction rest as [|nxt rest IH]; intros pre cur acc.
  - exists (pre ++ [cur]), acc, cur. simpl.
    split; [reflexivity|]. split; [apply last_snoc | reflexivity].
  - pose proof (list_lookup_middle pre (nxt :: rest) cur (length pre) eq_refl) as Hcur.
    pose proof (lookup_middle_next pre cur nxt rest) as Hnxt.
    destruct cur as [[start end_] speaker].
    destruct nxt as [[next_start next_end] next_speaker].
    destruct (Qgtb end_ next_start) eqn:Hcmp.
    + destruct (IH (pre ++ [(start, end_, speaker)])
                  (((next_start + end_) / 2)%Q, next_end, next_speaker)
                  (acc ++ [(start, ((next_start + end_) / 2)%Q, speaker)]))
        as (s' & a' & f & Hrun & Hlast & Hout).
      rewrite length_app in Hrun. cbn [length] in Hrun.
      replace (length pre + 1)%nat with (S (length pre)) in Hrun by lia.
      exists s', a', f.
      cbn [length seq DiarizeService.contiguous_loop].
      rewrite Hcur, Hnxt, Hcmp, insert_middle_next.
      split; [exact Hrun|]. split; [exact Hlast|].
      rewrite Hout, <- app_assoc.
      cbn [contiguous_from st_start st_end st_speaker fst snd].
      rewrite Hcmp. reflexivity.
    + destruct (IH (pre ++ [(start, end_, speaker)])
                  (next_start, next_end, next_speaker)
                  (acc ++ [(start, end_, speaker)]))
        as (s' & a' & f & Hrun & Hlast & Hout).
      rewrite length_app in Hrun. cbn [length] in Hrun.
      replace (length pre + 1)%nat with (S (length pre)) in Hrun by lia.
      rewrite <- app_assoc in Hrun. cbn [app] in Hrun.
      exists s', a', f.
      cbn [length seq DiarizeService.contiguous_loop].
      rewrite Hcur, Hnxt, Hcmp.
      split; [exact Hrun|]. split; [exact Hlast|].
      rewrite Hout, <- app_assoc.
      cbn [contiguous_from st_start st_end st_speaker fst snd].
      rewrite Hcmp. reflexivity.
Qed.

Lemma get_contiguous_stamps_cons (cur : stamp) (rest : list stamp) :
  DiarizeService.get_contiguous_stamps (cur :: rest) = Ok (contiguous_from cur rest).
Proof.
  destruct (contiguous_loop_spec rest [] cur []) as (s' & a' & f & Hrun & Hlast & Hout).
  unfold DiarizeService.get_contiguous_stamps.
  cbn [length app seq] in Hrun.
  replace (length (cur :: rest) - 1)%nat with (length rest) by (simpl; lia).
  rewrite Hrun. cbn. rewrite Hlast.
  destruct f as [[s e] sp]. rewrite Hout. reflexivity.
Qed.

Lemma get_contiguous_stamps_nil :
  DiarizeService.get_contiguous_stamps [] = Err (Builtin IndexError).
Proof. reflexivity. Qed.

Lemma merge_loop_spec (rest pre : list stamp) (cur : stamp) (acc : list stamp) :
  exists stamps' acc' final,
    DiarizeService.merge_loop (seq (length pre) (length rest))
      (pre ++ cur :: rest) acc = Ok (stamps', acc')
    /\ last stamps' = Some final
    /\ acc' ++ [final] = acc ++ merge_from cur rest.
Proof.
  revert pre cur acc.
  induction rest as [|nxt rest IH]; intros pre cur acc.
  - exists (pre ++ [cur]), acc, cur. simpl.
    split; [reflexivity|]. split; [apply last_snoc | reflexivity].
  - pose proof (list_lookup_middle pre (nxt :: rest) cur (length pre) eq_refl) as Hcur.
    pose proof (lookup_middle_next pre cur nxt rest) as Hnxt.
    destruct cur as [[start end_] speaker].
    destruct nxt as [[next_start next_end] next_speaker].
    destruct (Qeq_bool end_ next_start && Z.eqb speaker next_speaker) eqn:Hcmp.
    + destruct (IH (pre ++ [(start, end_, speaker)])
                  (start, next_end, next_speaker) acc)
        as (s' & a' & f & Hrun & Hlast & Hout).
      rewrite length_app in Hrun. cbn [length] in Hrun.
      replace (length pre + 1)%nat with (S (length pre)) in Hrun by lia.
      exists s', a', f.
      cbn [length seq DiarizeService.merge_loop].
      rewrite Hcur, Hnxt, Hcmp, insert_middle_next.
      split; [exact Hrun|]. split; [exact Hlast|].
      rewrite Hout.
      cbn [merge_from st_start st_end st_speaker fst snd].
      rewrite Hcmp. reflexivity.
    + destruct (IH (pre ++ [(start, end_, speaker)])
                  (next_start, next_end, next_speaker)
                  (acc ++ [(start, end_, speaker)]))
        as (s' & a' & f & Hrun & Hlast & Hout).
      rewrite length_app in Hrun. cbn [length] in Hrun.
      replace (length pre + 1)%nat with (S (length pre)) in Hrun by lia.
      rewrite <- app_assoc in Hrun. cbn [app] in Hrun.
      exists s', a', f.
      cbn [length seq DiarizeService.merge_loop].
      rewrite Hcur, Hnxt, Hcmp.
      split; [exact Hrun|]. split; [exact Hlast|].
      rewrite Hout, <- app_assoc.
      cbn [merge_from st_start st_end st_speaker fst snd].
      rewrite Hcmp. reflexivity.
Qed.

Lemma merge_stamps_cons (cur : stamp) (rest : list stamp) :
  DiarizeService.merge_stamps (cur :: rest) = Ok (merge_from cur rest).
Proof.
  destruct (merge_loop_spec rest [] cur []) as (s' & a' & f & Hrun & Hlast & Hout).
  unfold DiarizeService.merge_stamps.
  cbn [length app seq] in Hrun.
  replace (length (cur :: rest) - 1)%nat with (length rest) by (simpl; lia).
  rewrite Hrun. cbn. rewrite Hlast.
  destruct f as [[s e] sp]. rewrite Hout. reflexivity.
Qed.

(** ** Phase A *)

Lemma contiguous_from_head (rest : list stamp) (cur : stamp) :
  exists x l, contiguous_from cur rest = x :: l /\ st_start x = st_start cur.
Proof.
  destruct rest as [|nxt rest]; simpl.
  - exists cur, []. auto.
  - destruct (Qgtb (st_end cur) (st_start nxt)); eexists _, _; split; reflexivity.
Qed.

Lemma contiguous_from_length (rest : list stamp) (cur : stamp) :
  length (contiguous_from cur rest) = S (length rest).
Proof.
  revert cur. induction rest as [|nxt rest IH]; intros cur; simpl; [reflexivity|].
  destruct (Qgtb (st_end cur) (st_start nxt)); simpl; rewrite IH; reflexivity.
Qed.

Lemma contiguous_from_no_overlap (rest : list stamp) (cur : stamp) :
  adjacent no_overlap (contiguous_from cur rest).
Proof.
  revert cur. induction rest as [|nxt rest IH]; intros cur; [exact I|].
  cbn [contiguous_from].
  destruct (Qgtb (st_end cur) (st_start nxt)) eqn:Hcmp.
  - apply adjacent_cons; [|apply IH].
    intros b Hb.
    destruct (contiguous_from_head rest
                (((st_start nxt + st_end cur) / 2)%Q, st_end nxt, st_speaker nxt))
      as (x & l & Hx & Hstart).
    rewrite Hx in Hb. injection Hb as <-.
    unfold no_overlap. rewrite Hstart. cbn [st_start st_end fst snd]. apply Qle_refl.
  - apply adjacent_cons; [|apply IH].
    intros b Hb.
    destruct (contiguous_from_head rest nxt) as (x & l & Hx & Hstart).
    rewrite Hx in Hb. injection Hb as <-.
    unfold no_overlap. rewrite Hstart. apply Qgtb_false. exact Hcmp.
Qed.

Lemma contiguous_from_well_formed (rest : list stamp) (cur : stamp) :
  well_formed cur ->
  (forall nxt, head rest = Some nxt ->
     (2 * st_start cur <= st_start nxt + st_end cur)%Q /\ by_end cur nxt) ->
  Forall well_formed rest ->
  adjacent by_start rest ->
  adjacent by_end rest ->
  Forall well_formed (contiguous_from cur rest).
Proof.
  revert cur. induction rest as [|nxt rest IH]; intros cur Hcur Hnext Hwf Hs He.
  - repeat constructor. exact Hcur.
  - destruct (Hnext nxt eq_refl) as [Hmid Hend].
    apply Forall_cons in Hwf as [Hnxt Hwf].
    unfold well_formed, by_end in *.
    cbn [contiguous_from].
    destruct (Qgtb (st_end cur) (st_start nxt)) eqn:Hcmp.
    + constructor.
      * unfold well_formed. stamp_arith.
      * apply IH.
        -- unfold well_formed. stamp_arith.
        -- intros n2 Hn2. destruct rest as [|n2' rest']; [discriminate|].
           injection Hn2 as ->. destruct Hs as [Hs _]. destruct He as [He _].
           unfold by_start, by_end in *. split; stamp_arith.
        -- exact Hwf.
        -- apply (adjacent_tail _ _ _ Hs).
        -- apply (adjacent_tail _ _ _ He).
    + constructor; [exact Hcur|].
      apply IH.
      * exact Hnxt.
      * intros n2 Hn2. destruct rest as [|n2' rest']; [discriminate|].
        injection Hn2 as ->. destruct Hs as [Hs _]. destruct He as [He _].
        unfold by_start, by_end in *. split; stamp_arith.
      * exact Hwf.
      * apply (adjacent_tail _ _ _ Hs).
      * apply (adjacent_tail _ _ _ He).
Qed.

Lemma contiguous_from_fixed (rest : list stamp) (cur : stamp) :
  adjacent no_overlap (cur :: rest) -> contiguous_from cur rest = cur :: rest.
Proof.
  revert cur. induction rest as [|nxt rest IH]; intros cur H; [reflexivity|].
  destruct H as [H Htl]. cbn [contiguous_from].
  apply Qgtb_false in H. rewrite H, (IH nxt Htl). reflexivity.
Qed.

(** ** Phase B *)

Lemma merge_from_fixed (rest : list stamp) (cur : stamp) :
  adjacent not_same_turn (cur :: rest) -> merge_from cur rest = cur :: rest.
Proof.
  revert cur. induction rest as [|nxt rest IH]; intros cur H; [reflexivity|].
  destruct H as [H Htl]. cbn [merge_from].
  destruct (Qeq_bool (st_end cur) (st_start nxt)
            && Z.eqb (st_speaker cur) (st_speaker nxt)) eqn:Hcmp.
  - exfalso. apply H. apply andb_true_iff in Hcmp as [Hq Hz].
    split; [apply Qeq_bool_iff, Hq | apply Z.eqb_eq, Hz].
  - rewrite (IH nxt Htl). reflexivity.
Qed.

(** C1.  On every non-empty list of stamps ordered by start,
    [get_contiguous_stamps] returns a list, as long as its input, in which
    every stamp ends no later than the next one starts. *)
Theorem get_contiguous_stamps_contiguous (stamps : list stamp) :
  stamps <> [] ->
  adjacent by_start stamps ->
  exists out,
    DiarizeService.get_contiguous_stamps stamps = Ok out
    /\ length out = length stamps
    /\ forall (i : nat) (a b : stamp),
         out !! i = Some a -> out !! S i = Some b -> (st_end a <= st_start b)%Q.
Proof.
  intros Hne _. destruct stamps as [|cur rest]; [congruence|].
  exists (contiguous_from cur rest).
  split; [apply get_contiguous_stamps_cons|].
  split; [apply contiguous_from_length|].
  apply (adjacent_lookup no_overlap), contiguous_from_no_overlap.
Qed.

Lemma get_contiguous_stamps_contiguous_witness :
  exists out,
    DiarizeService.get_contiguous_stamps
      [(0, 5, 0%Z); (4, 9, 1%Z); (9, 19 # 2, 0%Z)]%Q = Ok out
    /\ length out = 3%nat
    /\ forall (i : nat) (a b : stamp),
         out !! i = Some a -> out !! S i = Some b -> (st_end a <= st_start b)%Q.
Proof.
  apply (get_contiguous_stamps_contiguous
           [(0, 5, 0%Z); (4, 9, 1%Z); (9, 19 # 2, 0%Z)]%Q).
  - discriminate.
  - concrete_stamps.
Defined.

(** C4, as stated, fails: a stamp that lies inside its predecessor comes
    out with its start after its end.  The input is ordered by start and
    each of its stamps has start <= end. *)
Lemma get_contiguous_stamps_nested_inverted :
  adjacent by_start [(0, 100, 0%Z); (1, 2, 1%Z)]%Q
  /\ Forall well_formed [(0, 100, 0%Z); (1, 2, 1%Z)]%Q
  /\ DiarizeService.get_contiguous_stamps [(0, 100, 0%Z); (1, 2, 1%Z)]%Q
     = Ok [(0, 101 # 2, 0%Z); (101 # 2, 2, 1%Z)]%Q
  /\ ~ Forall well_formed [(0, 101 # 2, 0%Z); (101 # 2, 2, 1%Z)]%Q.
Proof.
  split; [concrete_stamps|]. split; [concrete_stamps|].
  split; [reflexivity|].
  intros H. apply Forall_cons in H as [_ H]. apply Forall_cons in H as [H _].
  revert H. cbv [well_formed st_start st_end fst snd]. lra.
Qed.

(** C4, amended.  On every non-empty list of stamps ordered by start and
    also by end, whose stamps all have start <= end, every stamp that
    [get_contiguous_stamps] returns has start <= end. *)
Theorem get_contiguous_stamps_well_formed (stamps : list stamp) :
  stamps <> [] ->
  adjacent by_start stamps ->
  adjacent by_end stamps ->
  Forall well_formed stamps ->
  exists out,
    DiarizeService.get_contiguous_stamps stamps = Ok out
    /\ Forall well_formed out.
Proof.
  intros Hne Hs He Hwf. destruct stamps as [|cur rest]; [congruence|].
  exists (contiguous_from cur rest).
  split; [apply get_contiguous_stamps_cons|].
  apply Forall_cons in Hwf as [Hcur Hwf].
  apply contiguous_from_well_formed.
  - exact Hcur.
  - intros nxt Hnxt. destruct rest as [|n rest]; [discriminate|].
    injection Hnxt as ->. destruct Hs as [Hs _]. destruct He as [He _].
    unfold well_formed, by_start, by_end in *. split; [stamp_arith | exact He].
  - exact Hwf.
  - apply (adjacent_tail _ _ _ Hs).
  - apply (adjacent_tail _ _ _ He).
Qed.

Lemma get_contiguous_stamps_well_formed_witness :
  exists out,
    DiarizeService.get_contiguous_stamps
      [(0, 5, 0%Z); (4, 9, 1%Z); (9, 19 # 2, 0%Z)]%Q = Ok out
    /\ Forall well_formed out.
Proof.
  apply (get_contiguous_stamps_well_formed
           [(0, 5, 0%Z); (4, 9, 1%Z); (9, 19 # 2, 0%Z)]%Q).
  - discriminate.
  - concrete_stamps.
  - concrete_stamps.
  - concrete_stamps.
Defined.

(** C5.  A non-empty list of stamps that is already reconciled (no stamp
    ends after the next one starts, and no two neighbours both meet and
    have the same speaker) is returned unchanged by the two phases
    applied in order. *)
Theorem reconcile_fixed (stamps : list stamp) :
  stamps <> [] ->
  adjacent no_overlap stamps ->
  adjacent not_same_turn stamps ->
  DiarizeService.reconcile stamps = Ok stamps.
Proof.
  intros Hne Ha Hb. destruct stamps as [|cur rest]; [congruence|].
  unfold DiarizeService.reconcile.
  rewrite get_contiguous_stamps_cons, (contiguous_from_fixed rest cur Ha).
  cbn [mbind result_bind].
  rewrite merge_stamps_cons. f_equal. apply merge_from_fixed, Hb.
Qed.

Lemma reconcile_fixed_witness :
  DiarizeService.reconcile [(0, 9 # 2, 0%Z); (9 # 2, 9, 1%Z); (9, 19 # 2, 0%Z)]%Q
  = Ok [(0, 9 # 2, 0%Z); (9 # 2, 9, 1%Z); (9, 19 # 2, 0%Z)]%Q.
Proof.
  apply (reconcile_fixed [(0, 9 # 2, 0%Z); (9 # 2, 9, 1%Z); (9, 19 # 2, 0%Z)]%Q).
  - discriminate.
  - concrete_stamps.
  - concrete_stamps.
Defined.

(** ** Parameter selection *)

Lemma lookup_zip {A B : Type} (a : list A) (b : list B) (k : nat) :
  zip a b !! k = match a !! k, b !! k with
                 | Some x, Some y => Some (x, y)
                 | _, _ => None
                 end.
Proof.
  revert b k. induction a as [|x a IH]; intros b k; [reflexivity|].
  destruct b as [|y b].
  - simpl. destruct ((x :: a) !! k); reflexivity.
  - destruct k as [|k]; [reflexivity|]. exact (IH b k).
Qed.

Lemma scale_dict_of_ok (ws ss : list Q) :
  length ws = length ss ->
  exists d, DiarizeService.scale_dict_of ws ss = Ok d /\ pairs_scales d ws ss.
Proof.
  intros Hlen. exists (map_seq 0 (zip ws ss)). split.
  - unfold DiarizeService.scale_dict_of, DiarizeService.zip_strict.
    rewrite (proj2 (Nat.eqb_eq _ _) Hlen). reflexivity.
  - intros k. rewrite lookup_map_seq_0. apply lookup_zip.
Qed.

Lemma scale_dict_of_error (ws ss : list Q) :
  length ws <> length ss ->
  DiarizeService.scale_dict_of ws ss = Err (Builtin ValueError).
Proof.
  intros Hlen. unfold DiarizeService.scale_dict_of, DiarizeService.zip_strict.
  rewrite (proj2 (Nat.eqb_neq _ _) Hlen). reflexivity.
Qed.

Lemma init_inv (device : string) (device_index : list nat)
    (ws ss mw : list Q) (max_num_speakers : Z) (self : DiarizeService.t) :
  DiarizeService.init device device_index ws ss mw max_num_speakers = Ok self ->
  DiarizeService.scale_dict_of ws ss = Ok (DiarizeService.default_scale_dict self)
  /\ DiarizeService.default_shift_lengths self = ss
  /\ DiarizeService.default_multiscale_weights self = mw
  /\ DiarizeService.default_segmentation_batch_size self =
       (if (3 <? length mw)%nat then 64%Z
        else if (1 <? length mw)%nat then 128%Z else 256%Z).
Proof.
  unfold DiarizeService.init.
  destruct (DiarizeService.scale_dict_of ws ss) as [d|e]; cbn [mbind result_bind].
  - intros [= <-]. cbn. auto.
  - discriminate.
Qed.

(** C3, as stated, fails in the middle tier when the configured shift
    list does not have five entries: the service is built, and a duration
    of 3600 s raises instead of selecting parameters. *)
Lemma select_parameters_middle_tier_raises :
  exists self,
    DiarizeService.init "cuda" [0%nat]
      [3 # 2; 1; 1 # 2]%Q [3 # 4; 1 # 2; 1 # 4]%Q [1; 1; 1]%Q 8 = Ok self
    /\ DiarizeService.select_parameters self 3600 = Err (Builtin ValueError).
Proof. eexists. split; reflexivity. Qed.

(** C3, amended.  For a service built from window lengths [ws], shift
    lengths [ss] and weights [mw], the parameters depend on the duration
    alone.  Below 3600 s: [ws] paired with [ss], [mw], and batch size 64
    if [mw] has more than 3 entries, else 128 if more than 1, else 256.
    From 3600 s and below 10800 s: windows 3, 2.5, 2, 1.5, 1 paired with
    [ss], [mw], batch size 64, provided [ss] has five entries, and a
    [ValueError] otherwise.  From 10800 s: windows 3, 2, 1 paired with
    shifts 0.75, 0.5, 0.25, weights 1, 1, 1, batch size 32. *)
Theorem select_parameters_tiers (device : string) (device_index : list nat)
    (ws ss mw : list Q) (max_num_speakers : Z) (self : DiarizeService.t)
    (audio_duration : Q) :
  DiarizeService.init device device_index ws ss mw max_num_speakers = Ok self ->
  ((audio_duration < 3600)%Q ->
     exists scale_dict batch_size,
       DiarizeService.select_parameters self audio_duration
         = Ok (scale_dict, batch_size, mw)
       /\ pairs_scales scale_dict ws ss
       /\ ((3 < length mw)%nat -> batch_size = 64%Z)
       /\ ((1 < length mw)%nat -> (length mw <= 3)%nat -> batch_size = 128%Z)
       /\ ((length mw <= 1)%nat -> batch_size = 256%Z))
  /\ ((3600 <= audio_duration)%Q -> (audio_duration < 10800)%Q ->
      length ss = 5%nat ->
      exists scale_dict,
        DiarizeService.select_parameters self audio_duration
          = Ok (scale_dict, 64%Z, mw)
        /\ pairs_scales scale_dict [3; 5 # 2; 2; 3 # 2; 1]%Q ss)
  /\ ((3600 <= audio_duration)%Q -> (audio_duration < 10800)%Q ->
      length ss <> 5%nat ->
      DiarizeService.select_parameters self audio_duration
        = Err (Builtin ValueError))
  /\ ((10800 <= audio_duration)%Q ->
      exists scale_dict,
        DiarizeService.select_parameters self audio_duration
          = Ok (scale_dict, 32%Z, [1; 1; 1]%Q)
        /\ pairs_scales scale_dict [3; 2; 1]%Q [3 # 4; 1 # 2; 1 # 4]%Q).
Proof.
  intros Hinit.
  destruct (init_inv _ _ _ _ _ _ _ Hinit) as (Hdict & Hss & Hmw & Hbatch).
  unfold DiarizeService.select_parameters. rewrite Hss, Hmw, Hbatch.
  repeat split.
  - intros Hlt. apply Qltb_true in Hlt. rewrite Hlt.
    exists (DiarizeService.default_scale_dict self). eexists.
    split; [reflexivity|]. split.
    + destruct (decide (length ws = length ss)) as [Hlen|Hlen].
      * destruct (scale_dict_of_ok ws ss Hlen) as (d & Hd & Hp).
        rewrite Hd in Hdict. injection Hdict as <-. exact Hp.
      * rewrite (scale_dict_of_error ws ss Hlen) in Hdict. discriminate.
    + split; [|split].
      * intros H. apply Nat.ltb_lt in H. rewrite H. reflexivity.
      * intros H1 H3. apply Nat.ltb_lt in H1. rewrite H1.
        destruct (3 <? length mw)%nat eqn:E; [apply Nat.ltb_lt in E; lia | reflexivity].
      * intros H.
        destruct (3 <? length mw)%nat eqn:E3; [apply Nat.ltb_lt in E3; lia|].
        destruct (1 <? length mw)%nat eqn:E1; [apply Nat.ltb_lt in E1; lia|].
        reflexivity.
  - intros Hge Hlt Hlen. apply Qltb_false in Hge. apply Qltb_true in Hlt.
    rewrite Hge, Hlt.
    destruct (scale_dict_of_ok [3; 5 # 2; 2; 3 # 2; 1]%Q ss) as (d & Hd & Hp);
      [rewrite Hlen; reflexivity|].
    exists d. rewrite Hd. split; [reflexivity | exact Hp].
  - intros Hge Hlt Hlen. apply Qltb_false in Hge. apply Qltb_true in Hlt.
    rewrite Hge, Hlt, scale_dict_of_error; [reflexivity|].
    intros H. apply Hlen. rewrite <- H. reflexivity.
  - intros Hge.
    assert (Hge' : (3600 <= audio_duration)%Q) by lra.
    apply Qltb_false in Hge. apply Qltb_false in Hge'. rewrite Hge, Hge'.
    destruct (scale_dict_of_ok [3; 2; 1]%Q [3 # 4; 1 # 2; 1 # 4]%Q eq_refl)
      as (d & Hd & Hp).
    exists d. rewrite Hd. split; [reflexivity | exact Hp].
Qed.

Lemma select_parameters_tiers_witness :
  exists self,
    DiarizeService.init "cuda" [0%nat; 1%nat]
      [3 # 2; 5 # 4; 1; 3 # 4; 1 # 2]%Q [3 # 4; 5 # 8; 1 # 2; 3 # 8; 1 # 4]%Q
      [1; 1; 1; 1; 1]%Q 8 = Ok self
    /\ (exists scale_dict,
          DiarizeService.select_parameters self (35999 # 10)
            = Ok (scale_dict, 64%Z, [1; 1; 1; 1; 1]%Q)
          /\ pairs_scales scale_dict [3 # 2; 5 # 4; 1; 3 # 4; 1 # 2]%Q
               [3 # 4; 5 # 8; 1 # 2; 3 # 8; 1 # 4]%Q)
    /\ (exists scale_dict,
          DiarizeService.select_parameters self 3600
            = Ok (scale_dict, 64%Z, [1; 1; 1; 1; 1]%Q)
          /\ pairs_scales scale_dict [3; 5 # 2; 2; 3 # 2; 1]%Q
               [3 # 4; 5 # 8; 1 # 2; 3 # 8; 1 # 4]%Q)
    /\ (exists scale_dict,
          DiarizeService.select_parameters self 10800
            = Ok (scale_dict, 32%Z, [1; 1; 1]%Q)
          /\ pairs_scales scale_dict [3; 2; 1]%Q [3 # 4; 1 # 2; 1 # 4]%Q).
Proof.
  destruct (DiarizeService.init "cuda" [0%nat; 1%nat]
              [3 # 2; 5 # 4; 1; 3 # 4; 1 # 2]%Q
              [3 # 4; 5 # 8; 1 # 2; 3 # 8; 1 # 4]%Q [1; 1; 1; 1; 1]%Q 8)
    as [self|e] eqn:Hinit; [|vm_compute in Hinit; discriminate Hinit].
  exists self. split; [reflexivity|].
  split; [|split].
  - destruct (select_parameters_tiers _ _ _ _ _ _ _ (35999 # 10) Hinit)
      as (Hlow & _).
    destruct Hlow as (d & b & Hsel & Hp & Hb & _); [reflexivity|].
    exists d. rewrite Hsel, (Hb ltac:(simpl; lia)). auto.
  - destruct (select_parameters_tiers _ _ _ _ _ _ _ 3600 Hinit)
      as (_ & Hmid & _).
    apply Hmid; [discriminate | reflexivity | reflexivity].
  - destruct (select_parameters_tiers _ _ _ _ _ _ _ 10800 Hinit)
      as (_ & _ & _ & Htop).
    apply Htop. discriminate.
Defined.

(** ** No speech: [DiarizeService.__call__] *)

Section CallProperties.
Context {Waveform Interval Embeddings : Type}.
Variable vad_service : Waveform -> list Interval.
Variable segmentation :
  DiarizeService.DiarizationModels -> Waveform -> Z -> list Interval ->
  gmap nat (Q * Q) -> list Q -> Embeddings.
Variable clustering :
  DiarizeService.DiarizationModels -> Embeddings -> Z -> list stamp.

(** C10.  When the VAD returns no speech interval, the call returns
    [None], whatever the service, the duration and the model index are,
    and the only collaborator called is the VAD: there is no selection
    of parameters (which could raise), no lookup of the model, no
    segmentation, no clustering and no reconciliation. *)
Theorem call_no_speech (self : DiarizeService.t) (waveform : Waveform)
    (audio_duration : Q) (oracle_num_speakers : Z) (model_index : nat)
    (calls : list (DiarizeService.event (Waveform := Waveform))) :
  vad_service waveform = [] ->
  DiarizeService.call vad_service segmentation clustering self waveform
    audio_duration oracle_num_speakers model_index calls
  = (Ok None, calls ++ [DiarizeService.CalledVad waveform]).
Proof.
  intros Hvad. unfold DiarizeService.call, DiarizeService.log.
  cbn [mbind prog_bind]. rewrite Hvad. reflexivity.
Qed.

(** With speech, the parameters selected for the duration are the ones
    the segmentation is called with, on the model of the given index. *)
Lemma call_uses_selected_parameters (self : DiarizeService.t)
    (waveform : Waveform) (audio_duration : Q) (oracle_num_speakers : Z)
    (model_index : nat)
    (calls : list (DiarizeService.event (Waveform := Waveform)))
    (scale_dict : gmap nat (Q * Q)) (batch_size : Z) (weights : list Q)
    (m : DiarizeService.DiarizationModels) :
  vad_service waveform <> [] ->
  DiarizeService.select_parameters self audio_duration
    = Ok (scale_dict, batch_size, weights) ->
  DiarizeService.models self !! model_index = Some m ->
  DiarizeService.call vad_service segmentation clustering self waveform
    audio_duration oracle_num_speakers model_index calls
  = (Some <$>
       DiarizeService.reconcile
         (clustering m
            (segmentation m waveform batch_size (vad_service waveform)
               scale_dict weights)
            oracle_num_speakers),
     calls ++ [DiarizeService.CalledVad waveform;
               DiarizeService.CalledSegmentation m batch_size scale_dict weights;
               DiarizeService.CalledClustering m oracle_num_speakers]).
Proof.
  intros Hvad Hsel Hm.
  unfold DiarizeService.call, DiarizeService.log, DiarizeService.get_model,
    DiarizeService.reconcile, lift, mbind, mret, prog_bind, prog_ret.
  destruct (vad_service waveform) as [|iv ivs] eqn:Hv; [congruence|].
  cbn [length Nat.eqb]. rewrite Hsel, Hm. cbn [fmap result_fmap result_bind].
  rewrite <- !app_assoc. cbn [app].
  destruct (DiarizeService.get_contiguous_stamps _) as [o|e]; [|reflexivity].
  unfold result_bind.
  destruct (DiarizeService.merge_stamps o); reflexivity.
Qed.
End CallProperties.

Lemma call_no_speech_witness :
  DiarizeService.call
    (fun _ : list Q => ([] : list (Q * Q)))
    (fun _ _ _ _ _ _ => tt)
    (fun _ _ _ => [])
    {| DiarizeService.device := "cpu";
       DiarizeService.models := ∅;
       DiarizeService.max_num_speakers := 8;
       DiarizeService.default_window_lengths := [3 # 2]%Q;
       DiarizeService.default_shift_lengths := [3 # 4]%Q;
       DiarizeService.default_multiscale_weights := [1]%Q;
       DiarizeService.default_segmentation_batch_size := 256;
       DiarizeService.default_scale_dict := {[ 0%nat := (3 # 2, 3 # 4)%Q ]} |}
    [] 7200 2 0%nat []
  = (Ok None, [DiarizeService.CalledVad []]).
Proof.
  apply (call_no_speech (fun _ : list Q => ([] : list (Q * Q)))
           (fun _ _ _ _ _ _ => tt) (fun _ _ _ => [])).
  reflexivity.
Defined.

(** With speech, on the same service and duration, the selection of
    parameters is reached and raises. *)
Example call_speech_reaches_selection :
  DiarizeService.call
    (fun _ : list Q => [(0, 1)%Q])
    (fun _ _ _ _ _ _ => tt)
    (fun _ _ _ => [])
    {| DiarizeService.device := "cpu";
       DiarizeService.models := ∅;
       DiarizeService.max_num_speakers := 8;
       DiarizeService.default_window_lengths := [3 # 2]%Q;
       DiarizeService.default_shift_lengths := [3 # 4]%Q;
       DiarizeService.default_multiscale_weights := [1]%Q;
       DiarizeService.default_segmentation_batch_size := 256;
       DiarizeService.default_scale_dict := {[ 0%nat := (3 # 2, 3 # 4)%Q ]} |}
    [] 7200 2 0%nat []
  = (Err (Builtin ValueError), [DiarizeService.CalledVad []]).
Proof. reflexivity. Qed.

(** ** The transcription fallback *)

Section ModelProperties.
Context {Audio ModelState : Type}.
Variable transcribe :
  ModelState -> Audio -> TranscribeService.transcribe_kwargs ->
  result (list TranscribeService.Segment) * ModelState.

Import TranscribeService.

(** C2, amended.  On a single recording whose first pass returns no
    segment, the model is called exactly once more, with the same
    audio, language, prompt and thresholds, blank suppression off, word
    timestamps on, and the VAD filter set to the opposite of the
    caller's [internal_vad]; what that second call returns is what
    [__call__] returns (an empty list of segments included), and the
    log of calls grows by these two calls and no other. *)
Theorem call_single_fallback (audio : Audio) (a : call_args)
    (w : world (Audio := Audio) (ModelState := ModelState))
    (kwargs : transcribe_kwargs) (ms1 : ModelState) :
  kwargs =
    {| language := source_lang a;
       initial_prompt := build_prompt (vocab a);
       kw_repetition_penalty := repetition_penalty a;
       kw_compression_ratio_threshold := compression_ratio_threshold a;
       kw_log_prob_threshold := log_prob_threshold a;
       kw_no_speech_threshold := no_speech_threshold a;
       kw_condition_on_previous_text := condition_on_previous_text a;
       kw_suppress_blank := suppress_blank a;
       kw_word_timestamps := word_timestamps a;
       vad_filter := internal_vad a;
       vad_parameters := Some the_vad_parameters |} ->
  transcribe (model_state w) audio kwargs = (Ok [], ms1) ->
  exists retry,
    call transcribe (Single audio) a w
    = (Transcript <$> fst (transcribe ms1 audio retry),
       {| model_state := snd (transcribe ms1 audio retry);
          calls := calls w ++ [(audio, kwargs); (audio, retry)] |})
    /\ vad_filter retry = negb (internal_vad a)
    /\ kw_suppress_blank retry = false
    /\ kw_word_timestamps retry = true
    /\ vad_parameters retry = None
    /\ language retry = language kwargs
    /\ initial_prompt retry = initial_prompt kwargs
    /\ kw_repetition_penalty retry = kw_repetition_penalty kwargs
    /\ kw_compression_ratio_threshold retry = kw_compression_ratio_threshold kwargs
    /\ kw_log_prob_threshold retry = kw_log_prob_threshold kwargs
    /\ kw_no_speech_threshold retry = kw_no_speech_threshold kwargs
    /\ kw_condition_on_previous_text retry = kw_condition_on_previous_text kwargs.
Proof.
  intros -> Hfirst.
  exists {| language := source_lang a;
            initial_prompt := build_prompt (vocab a);
            kw_repetition_penalty := repetition_penalty a;
            kw_compression_ratio_threshold := compression_ratio_threshold a;
            kw_log_prob_threshold := log_prob_threshold a;
            kw_no_speech_threshold := no_speech_threshold a;
            kw_condition_on_previous_text := condition_on_previous_text a;
            kw_suppress_blank := false;
            kw_word_timestamps := true;
            vad_filter := if internal_vad a then false else true;
            vad_parameters := None |}.
  split.
  - unfold call, mbind, mret, prog_bind, prog_ret, model_transcribe.
    rewrite Hfirst. cbn [model_state calls].
    destruct (transcribe ms1 audio _) as [[segments|e] ms2];
      cbn [fst snd]; rewrite <- app_assoc; reflexivity.
  - cbn. destruct (internal_vad a); repeat split; reflexivity.
Qed.
End ModelProperties.

Lemma call_single_fallback_witness :
  exists first retry,
    TranscribeService.call Stub.second_try (TranscribeService.Single tt)
      (Stub.args false) Stub.fresh
    = (Ok (TranscribeService.Transcript [Stub.hello; Stub.bye]),
       {| TranscribeService.model_state := 2%nat;
          TranscribeService.calls := [(tt, first); (tt, retry)] |})
    /\ TranscribeService.vad_filter first = false
    /\ TranscribeService.vad_filter retry = true
    /\ TranscribeService.kw_suppress_blank retry = false
    /\ TranscribeService.kw_word_timestamps retry = true.
Proof.
  destruct (call_single_fallback Stub.second_try tt (Stub.args false) Stub.fresh
              _ 1%nat eq_refl eq_refl)
    as (retry & Hcall & Hvad & Hblank & Hwords & _).
  eexists _, retry.
  split; [exact Hcall|]. split; [reflexivity|].
  split; [exact Hvad|]. split; [exact Hblank | exact Hwords].
Defined.

(** C2, as stated, fails on the VAD filter: for a caller that had
    [internal_vad] on, the one retry runs with the filter off.  (The rest
    holds: two calls, and the empty second result is returned as such.) *)
Lemma call_retry_turns_vad_off :
  exists first retry,
    TranscribeService.call Stub.silent (TranscribeService.Single tt)
      (Stub.args true) Stub.fresh
    = (Ok (TranscribeService.Transcript []),
       {| TranscribeService.model_state := 2%nat;
          TranscribeService.calls := [(tt, first); (tt, retry)] |})
    /\ TranscribeService.vad_filter first = true
    /\ TranscribeService.vad_filter retry = false.
Proof. eexists _, _. split; [reflexivity|]. split; reflexivity. Qed.

(** A first pass that returns segments is the only call. *)
Lemma call_single_no_fallback {Audio ModelState : Type}
    (transcribe : ModelState -> Audio -> TranscribeService.transcribe_kwargs ->
                  result (list TranscribeService.Segment) * ModelState)
    (audio : Audio) (a : TranscribeService.call_args)
    (w : TranscribeService.world (Audio := Audio) (ModelState := ModelState)) :
  exists first,
    (forall segment segments ms1,
       transcribe (TranscribeService.model_state w) audio first
         = (Ok (segment :: segments), ms1) ->
       TranscribeService.call transcribe (TranscribeService.Single audio) a w
       = (Ok (TranscribeService.Transcript (segment :: segments)),
          {| TranscribeService.model_state := ms1;
             TranscribeService.calls :=
               TranscribeService.calls w ++ [(audio, first)] |}))
    /\ (forall e ms1,
          transcribe (TranscribeService.model_state w) audio first = (Err e, ms1) ->
          TranscribeService.call transcribe (TranscribeService.Single audio) a w
          = (Err e,
             {| TranscribeService.model_state := ms1;
                TranscribeService.calls :=
                  TranscribeService.calls w ++ [(audio, first)] |})).
Proof.
  eexists. split.
  - intros segment segments ms1 H.
    unfold TranscribeService.call, mbind, mret, prog_bind, prog_ret,
      TranscribeService.model_transcribe.
    rewrite H. reflexivity.
  - intros e ms1 H.
    unfold TranscribeService.call, mbind, mret, prog_bind, prog_ret,
      TranscribeService.model_transcribe.
    rewrite H. reflexivity.
Qed.

(** ** Channels *)

Lemma segment_dict_of_words (speaker_id : nat) (segment : TranscribeService.Segment)
    (word : TranscribeService.Word) (words : list TranscribeService.Word) :
  TranscribeService.seg_words segment = Some (word :: words) ->
  exists d final,
    TranscribeService.segment_dict_of speaker_id segment = Ok d
    /\ last (word :: words) = Some final
    /\ TranscribeService.sd_start d = TranscribeService.w_start word
    /\ TranscribeService.sd_end d = TranscribeService.w_end final
    /\ TranscribeService.sd_text d = TranscribeService.seg_text segment
    /\ TranscribeService.sd_words d
       = map TranscribeService.word_dict_of (word :: words)
    /\ TranscribeService.sd_speaker d = speaker_id.
Proof.
  intros Hw. unfold TranscribeService.segment_dict_of. rewrite Hw.
  destruct (last (word :: words)) as [final|] eqn:Hlast.
  - change (map TranscribeService.word_dict_of (word :: words))
      with (TranscribeService.word_dict_of <$> (word :: words)).
    rewrite fmap_last, Hlast. cbn.
    eexists _, final. repeat split; reflexivity.
  - apply last_None in Hlast. discriminate.
Qed.

Lemma segment_dict_of_no_word (speaker_id : nat) (segment : TranscribeService.Segment) :
  TranscribeService.seg_words segment = Some [] ->
  TranscribeService.segment_dict_of speaker_id segment = Err (Builtin IndexError).
Proof.
  intros Hw. unfold TranscribeService.segment_dict_of. rewrite Hw. reflexivity.
Qed.

Lemma segments_loop_words (speaker_id : nat)
    (segments : list TranscribeService.Segment)
    (final_transcript : list TranscribeService.segment_dict) :
  Forall (fun s => TranscribeService.seg_words s <> None) segments ->
  Forall (fun s => TranscribeService.seg_words s <> Some []) segments ->
  exists out,
    TranscribeService.segments_loop speaker_id segments final_transcript
      = Ok (final_transcript ++ out)
    /\ Forall2 (emitted_from speaker_id) segments out.
Proof.
  revert final_transcript.
  induction segments as [|s segments IH]; intros acc Hsome Hne.
  - exists []. rewrite app_nil_r. split; [reflexivity | constructor].
  - apply Forall_cons in Hsome as [Hs Hsome]. apply Forall_cons in Hne as [Hn Hne].
    destruct (TranscribeService.seg_words s) as [[|word words]|] eqn:Hw;
      [congruence| |congruence].
    destruct (segment_dict_of_words speaker_id s word words Hw)
      as (d & final & Hd & Hlast & H1 & H2 & H3 & H4 & H5).
    destruct (IH (acc ++ [d]) Hsome Hne) as (out & Hout & Hall).
    exists (d :: out). split.
    + cbn [TranscribeService.segments_loop]. rewrite Hd. cbn [mbind result_bind].
      rewrite Hout, <- app_assoc. reflexivity.
    + constructor; [|exact Hall].
      exists (word :: words), word, final. rewrite Hw. auto 10.
Qed.

Lemma segments_loop_no_word (speaker_id : nat)
    (segments : list TranscribeService.Segment)
    (final_transcript : list TranscribeService.segment_dict) :
  Forall (fun s => TranscribeService.seg_words s <> None) segments ->
  Exists (fun s => TranscribeService.seg_words s = Some []) segments ->
  TranscribeService.segments_loop speaker_id segments final_transcript
    = Err (Builtin IndexError).
Proof.
  revert final_transcript.
  induction segments as [|s segments IH]; intros acc Hsome Hex.
  - inversion Hex.
  - apply Forall_cons in Hsome as [Hs Hsome].
    cbn [TranscribeService.segments_loop].
    destruct (TranscribeService.seg_words s) as [[|word words]|] eqn:Hw;
      [|  |congruence].
    + rewrite (segment_dict_of_no_word speaker_id s Hw). reflexivity.
    + destruct (segment_dict_of_words speaker_id s word words Hw)
        as (d & final & Hd & _).
      rewrite Hd. cbn [mbind result_bind]. apply IH; [exact Hsome|].
      apply Exists_cons in Hex as [Hex|Hex]; [congruence | exact Hex].
Qed.

Section ChannelProperties.
Context {Audio ModelState : Type}.
Variable transcribe :
  ModelState -> Audio -> TranscribeService.transcribe_kwargs ->
  result (list TranscribeService.Segment) * ModelState.

Import TranscribeService.

(** C7, amended.  When the model returns segments that all carry a
    list of words: if one of these lists is empty, [multi_channel]
    fails with the [IndexError] of the indexing [words[0]], raised by
    the interpreter and not by a [raise] of the program, and returns no
    segment; if none is empty, it returns one dictionary per segment,
    in order, whose start is the start of the first word and whose end
    is the end of the last word. *)
Theorem multi_channel_words (audio : Audio) (source_lang : string)
    (speaker_id : nat) (suppress_blank word_timestamps internal_vad : bool)
    (repetition_penalty compression_ratio_threshold log_prob_threshold
       no_speech_threshold : Q)
    (condition_on_previous_text : bool) (prompt : option string)
    (w : world (Audio := Audio) (ModelState := ModelState))
    (segments : list Segment) :
  fst (transcribe (model_state w) audio
         {| language := source_lang;
            initial_prompt := prompt;
            kw_repetition_penalty := repetition_penalty;
            kw_compression_ratio_threshold := compression_ratio_threshold;
            kw_log_prob_threshold := log_prob_threshold;
            kw_no_speech_threshold := no_speech_threshold;
            kw_condition_on_previous_text := condition_on_previous_text;
            kw_suppress_blank := suppress_blank;
            kw_word_timestamps := word_timestamps;
            vad_filter := internal_vad;
            vad_parameters := Some the_vad_parameters |}) = Ok segments ->
  Forall (fun s => seg_words s <> None) segments ->
  let outcome :=
    fst (multi_channel transcribe audio source_lang speaker_id suppress_blank
           word_timestamps internal_vad repetition_penalty
           compression_ratio_threshold log_prob_threshold no_speech_threshold
           condition_on_previous_text prompt w) in
  (Exists (fun s => seg_words s = Some []) segments ->
     outcome = Err (Builtin IndexError) /\ raise_explicit outcome = false)
  /\ (Forall (fun s => seg_words s <> Some []) segments ->
      exists out,
        outcome = Ok out /\ Forall2 (emitted_from speaker_id) segments out).
Proof.
  intros Hmodel Hsome outcome. subst outcome.
  unfold multi_channel, mbind, prog_bind, model_transcribe, lift.
  destruct (transcribe (model_state w) audio _) as [r ms1].
  cbn [fst] in Hmodel. subst r. cbn [fst].
  split.
  - intros Hex. rewrite (segments_loop_no_word _ _ _ Hsome Hex). auto.
  - intros Hne.
    destruct (segments_loop_words speaker_id segments [] Hsome Hne)
      as (out & Hout & Hall).
    exists out. rewrite Hout. auto.
Qed.
End ChannelProperties.

Lemma multi_channel_words_witness :
  let outcome :=
    fst (TranscribeService.multi_channel Stub.second_try tt "en" 1 false true
           true 1 (12 # 5) (- (1)) (3 # 5) false None
           {| TranscribeService.model_state := 1%nat;
              TranscribeService.calls := [] |}) in
  (Exists (fun s => TranscribeService.seg_words s = Some []) [Stub.hello; Stub.bye] ->
     outcome = Err (Builtin IndexError) /\ raise_explicit outcome = false)
  /\ (Forall (fun s => TranscribeService.seg_words s <> Some [])
        [Stub.hello; Stub.bye] ->
      exists out,
        outcome = Ok out
        /\ Forall2 (emitted_from 1) [Stub.hello; Stub.bye] out).
Proof.
  apply (multi_channel_words Stub.second_try tt "en" 1 false true true 1
           (12 # 5) (- (1)) (3 # 5) false None
           {| TranscribeService.model_state := 1%nat;
              TranscribeService.calls := [] |} [Stub.hello; Stub.bye]).
  - reflexivity.
  - repeat constructor; discriminate.
Defined.

(** C7, as stated, fails: on a segment without words the error is the
    interpreter's [IndexError], not one the function raises on purpose.
    The words are asked for and the other segments have theirs. *)
Lemma multi_channel_raw_index_error :
  fst (TranscribeService.multi_channel Stub.malformed tt "en" 0 false true
         true 1 (12 # 5) (- (1)) (3 # 5) false None Stub.fresh)
  = Err (Builtin IndexError)
  /\ raise_explicit
       (fst (TranscribeService.multi_channel Stub.malformed tt "en" 0 false true
               true 1 (12 # 5) (- (1)) (3 # 5) false None Stub.fresh))
     = false.
Proof. split; reflexivity. Qed.

(** The same through [__call__] with a list of channels: the failure of
    one channel is the failure of the call. *)
Example call_channels_raw_index_error :
  fst (TranscribeService.call Stub.malformed
         (TranscribeService.Channels [tt; tt]) (Stub.args true) Stub.fresh)
  = Err (Builtin IndexError).
Proof. reflexivity. Qed.

Example call_channels_speakers :
  (fun r => match r with
            | Ok (TranscribeService.PerChannel channels) =>
                map (map (fun d => (TranscribeService.sd_speaker d,
                                    TranscribeService.sd_start d,
                                    TranscribeService.sd_end d))) channels
            | _ => []
            end)
    (fst (TranscribeService.call Stub.second_try
            (TranscribeService.Channels [tt; tt]) (Stub.args true)
            {| TranscribeService.model_state := 1%nat;
               TranscribeService.calls := [] |}))
  = [[(0%nat, 1 # 2, 3 # 2); (0%nat, 9 # 4, 5 # 2)];
     [(1%nat, 1 # 2, 3 # 2); (1%nat, 9 # 4, 5 # 2)]]%Q.
Proof. reflexivity. Qed.

(** ** Stripping and joining *)

Lemma lstrip_chars_length (l : list ascii) :
  (length (lstrip_chars l) <= length l)%nat.
Proof.
  induction l as [|c l IH]; simpl; [lia|].
  destruct (is_space c); simpl; lia.
Qed.

Lemma lstrip_chars_fixed (l : list ascii) :
  (forall c, head l = Some c -> is_space c = false) -> lstrip_chars l = l.
Proof.
  destruct l as [|c l]; [reflexivity|].
  intros H. simpl. rewrite (H c eq_refl). reflexivity.
Qed.

Lemma lstrip_chars_same_length (l : list ascii) :
  length (lstrip_chars l) = length l ->
  forall c, head l = Some c -> is_space c = false.
Proof.
  destruct l as [|c l]; [discriminate|].
  intros Hlen c' [= <-]. simpl in Hlen.
  destruct (is_space c); [|reflexivity].
  pose proof (lstrip_chars_length l). lia.
Qed.

Lemma strip_chars_fixed (l : list ascii) :
  (forall c, head l = Some c -> is_space c = false) ->
  (forall c, last l = Some c -> is_space c = false) ->
  strip_chars l = l.
Proof.
  intros Hh Hl. unfold strip_chars.
  rewrite (lstrip_chars_fixed l Hh).
  rewrite (lstrip_chars_fixed (reverse l)).
  - apply reverse_involutive.
  - intros c. rewrite head_reverse. apply Hl.
Qed.

Lemma strip_chars_fixed_inv (l : list ascii) :
  strip_chars l = l ->
  (forall c, head l = Some c -> is_space c = false)
  /\ (forall c, last l = Some c -> is_space c = false).
Proof.
  intros H.
  assert (Hlen : length (strip_chars l) = length l) by (rewrite H; reflexivity).
  unfold strip_chars in Hlen. rewrite length_reverse in Hlen.
  pose proof (lstrip_chars_length (reverse (lstrip_chars l))) as H1.
  pose proof (lstrip_chars_length l) as H2.
  rewrite length_reverse in H1.
  assert (Hh : forall c, head l = Some c -> is_space c = false)
    by (apply lstrip_chars_same_length; lia).
  split; [exact Hh|].
  intros c Hc. rewrite (lstrip_chars_fixed l Hh) in Hlen.
  apply (lstrip_chars_same_length (reverse l)).
  - rewrite Hlen, length_reverse. reflexivity.
  - rewrite head_reverse. exact Hc.
Qed.

Lemma chars_append (s1 s2 : string) :
  list_ascii_of_string (s1 +:+ s2)
  = list_ascii_of_string s1 ++ list_ascii_of_string s2.
Proof.
  induction s1 as [|c s1 IH]; [reflexivity|]. simpl. rewrite IH. reflexivity.
Qed.

Lemma chars_nil (s : string) : list_ascii_of_string s = [] -> s = "".
Proof. destruct s; [reflexivity | discriminate]. Qed.

Lemma tidy_chars (s : string) :
  tidy s ->
  list_ascii_of_string s <> []
  /\ (forall c, head (list_ascii_of_string s) = Some c -> is_space c = false)
  /\ (forall c, last (list_ascii_of_string s) = Some c -> is_space c = false).
Proof.
  intros [Hne Hfix]. split.
  - intros H. apply Hne, chars_nil, H.
  - apply strip_chars_fixed_inv.
    unfold strip in Hfix.
    apply (f_equal list_ascii_of_string) in Hfix.
    rewrite list_ascii_of_string_of_list_ascii in Hfix. exact Hfix.
Qed.

Lemma join_cons_cons (sep x y : string) (l : list string) :
  join sep (x :: y :: l) = x +:+ sep +:+ join sep (y :: l).
Proof. reflexivity. Qed.

Lemma join_chars (sep x : string) (l : list string) :
  Forall tidy (x :: l) ->
  exists final,
    last (x :: l) = Some final
    /\ list_ascii_of_string (join sep (x :: l)) <> []
    /\ head (list_ascii_of_string (join sep (x :: l)))
       = head (list_ascii_of_string x)
    /\ last (list_ascii_of_string (join sep (x :: l)))
       = last (list_ascii_of_string final).
Proof.
  revert x. induction l as [|y l IH]; intros x Hall.
  - apply Forall_cons in Hall as [Hx _].
    destruct (tidy_chars x Hx) as (Hne & _).
    exists x. auto.
  - apply Forall_cons in Hall as [Hx Hall].
    destruct (tidy_chars x Hx) as (Hne & _).
    destruct (IH y Hall) as (final & Hlast & Hjne & Hjh & Hjl).
    exists final. rewrite join_cons_cons, !chars_append.
    split; [exact Hlast|].
    destruct (list_ascii_of_string x) as [|c cs] eqn:Hcs; [congruence|].
    split; [discriminate|]. split; [reflexivity|].
    rewrite <- Hjl.
    destruct (list_ascii_of_string (join sep (y :: l))) as [|d ds] eqn:Hds;
      [congruence|].
    rewrite !app_assoc, !last_app.
    destruct (last (d :: ds)) eqn:E; [reflexivity|].
    apply last_None in E. discriminate.
Qed.

Lemma strip_join_tidy (x : string) (l : list string) :
  Forall tidy (x :: l) -> strip (join ", " (x :: l)) = join ", " (x :: l).
Proof.
  intros Hall.
  destruct (join_chars ", " x l Hall) as (final & Hlast & Hne & Hh & Hl).
  unfold strip. rewrite strip_chars_fixed.
  - apply string_of_list_ascii_of_string.
  - rewrite Hh. apply (tidy_chars x). apply (Forall_inv Hall).
  - rewrite Hl. apply (tidy_chars final).
    apply (proj1 (List.Forall_forall _ _) Hall).
    apply (proj1 (list_elem_of_In (x :: l) final)), last_Some_elem_of, Hlast.
Qed.

(** ** The prompt *)

Lemma truthy_false (s : string) : truthy s = false <-> s = "".
Proof. destruct s; simpl; split; congruence. Qed.

Lemma build_prompt_cons (v0 : string) (l : list string) :
  TranscribeService.build_prompt (Some (v0 :: l))
  = if truthy (strip v0)
    then Some ("Vocab: " +:+ strip (join ", " (v0 :: l)))
    else None.
Proof. reflexivity. Qed.

(** A blank first string suppresses the prompt, whatever follows it. *)
Lemma build_prompt_blank_first (v0 : string) (l : list string) :
  strip v0 = "" -> TranscribeService.build_prompt (Some (v0 :: l)) = None.
Proof. intros H0. rewrite build_prompt_cons, H0. reflexivity. Qed.

(** C6, as stated, fails: empty strings are joined like the others, and a
    blank first string alone suppresses the prompt. *)
Lemma build_prompt_keeps_empty_strings :
  TranscribeService.build_prompt (Some ["a"; ""; "b"]) = Some "Vocab: a, , b"
  /\ claimed_prompt (Some ["a"; ""; "b"]) = Some "Vocab: a, b"
  /\ TranscribeService.build_prompt (Some [" "; "b"]) = None
  /\ claimed_prompt (Some [" "; "b"]) = Some "Vocab:  , b"
  /\ TranscribeService.build_prompt (Some ["a"; ""; "b"])
     <> claimed_prompt (Some ["a"; ""; "b"]).
Proof. repeat split; try reflexivity. discriminate. Qed.

Section PromptProperties.
Context {Audio ModelState : Type}.
Variable transcribe :
  ModelState -> Audio -> TranscribeService.transcribe_kwargs ->
  result (list TranscribeService.Segment) * ModelState.

Import TranscribeService.

Lemma channels_loop_vocab (v : option (list string)) (a : call_args)
    (prompt : option string) (audio : list Audio) (audio_index : nat)
    (outputs : list (list segment_dict))
    (w : world (Audio := Audio) (ModelState := ModelState)) :
  channels_loop transcribe (with_vocab v a) prompt audio_index audio outputs w
  = channels_loop transcribe a prompt audio_index audio outputs w.
Proof.
  revert audio_index outputs w.
  induction audio as [|audio_file audio IH]; intros audio_index outputs w;
    [reflexivity|].
  cbn [channels_loop with_vocab source_lang suppress_blank word_timestamps
       internal_vad repetition_penalty compression_ratio_threshold
       log_prob_threshold no_speech_threshold].
  unfold mbind, prog_bind.
  destruct (multi_channel _ _ _ _ _ _ _ _ _ _ _ _ _ w) as [[channel|e] w'];
    [apply IH | reflexivity].
Qed.

(** C6, amended.  The prompt is [None] when the vocabulary is absent,
    empty or made of blank strings only.  When its first string is not
    blank, the prompt is ["Vocab: "] followed by all the strings joined
    by [", "], empty ones included, with the whitespace at both ends of
    the joined text removed; for a vocabulary of tidy strings that is
    ["Vocab: "] followed by the strings joined by [", "].  The call uses
    the vocabulary for the prompt only: two vocabularies with the same
    prompt give the same run. *)
Theorem build_prompt_spec (v : option (list string)) :
  (v = None -> build_prompt v = None)
  /\ (forall l, v = Some l -> Forall (fun s => strip s = "") l ->
      build_prompt v = None)
  /\ (forall v0 l, v = Some (v0 :: l) -> strip v0 = "" -> build_prompt v = None)
  /\ (forall v0 l, v = Some (v0 :: l) -> strip v0 <> "" ->
      build_prompt v = Some ("Vocab: " +:+ strip (join ", " (v0 :: l))))
  /\ (forall v0 l, v = Some (v0 :: l) -> Forall tidy (v0 :: l) ->
      build_prompt v = Some ("Vocab: " +:+ join ", " (v0 :: l)))
  /\ (forall (audio : audio_arg (Audio := Audio)) (a : call_args)
             (w : world (Audio := Audio) (ModelState := ModelState)),
      build_prompt v = build_prompt (vocab a) ->
      call transcribe audio (with_vocab v a) w = call transcribe audio a w).
Proof.
  split; [intros ->; reflexivity|].
  split.
  { intros l -> Hall. destruct l as [|v0 l]; [reflexivity|].
    rewrite build_prompt_cons.
    apply Forall_cons in Hall as [H0 _]. rewrite H0. reflexivity. }
  split.
  { intros v0 l -> H0. rewrite build_prompt_cons, H0. reflexivity. }
  split.
  { intros v0 l -> H0. rewrite build_prompt_cons.
    destruct (truthy (strip v0)) eqn:E; [reflexivity|].
    apply truthy_false in E. contradiction. }
  split.
  { intros v0 l -> Hall. rewrite build_prompt_cons.
    destruct (Forall_inv Hall) as [Hne Hfix].
    rewrite Hfix, (strip_join_tidy v0 l Hall).
    destruct v0; [contradiction | reflexivity]. }
  intros audio a w Hprompt. unfold call.
  cbn [with_vocab vocab]. rewrite Hprompt.
  destruct audio as [audio|audio]; [reflexivity|].
  unfold mbind, prog_bind. rewrite channels_loop_vocab. reflexivity.
Qed.
End PromptProperties.

(** ** Early return *)

(** C8.  Whatever the duration, [early_return] gives one utterance, from 0
    to the duration, with no speaker and no words, the process times
    total, transcription and post-processing 0, and the duration. *)
Theorem early_return_placeholder (duration : Q) :
  exists u times,
    Utils.early_return duration = ([u], times, duration)
    /\ Utils.start u = 0%Q
    /\ Utils.end_ u = duration
    /\ Utils.speaker u = None
    /\ Utils.words u = None
    /\ Utils.text u = "<EMPTY AUDIO>"
    /\ Utils.total times = 0%Q
    /\ Utils.transcription times = 0%Q
    /\ Utils.post_processing times = 0%Q
    /\ Utils.diarization times = None.
Proof.
  unfold Utils.early_return. eexists _, _. repeat split.
Qed.

(** ** The pool *)

Lemma pool_invariant_create (device_index : list nat) :
  pool_invariant device_index (DeviceModelPool.create device_index).
Proof.
  split; [reflexivity|]. split; [constructor|].
  intros r Hr. simpl in Hr. inversion Hr.
Qed.

Lemma pool_invariant_step (device_index : list nat) (p p' : DeviceModelPool.pool) :
  DeviceModelPool.step p p' ->
  pool_invariant device_index p -> pool_invariant device_index p'.
Proof.
  intros Hstep (Hrep & Hnd & Hsub).
  destruct Hstep as [p p' r Hacq | p p' slot Hrel | p slot e Herr].
  - unfold DeviceModelPool.acquire, DeviceModelPool.is_free in Hacq.
    destruct (bool_decide (r ∈ DeviceModelPool.replicas p)) eqn:Hin;
      [|discriminate].
    destruct (bool_decide (r ∉ DeviceModelPool.leases p)) eqn:Hfree;
      [|discriminate].
    apply bool_decide_eq_true in Hin. apply bool_decide_eq_true in Hfree.
    injection Hacq as <-. cbn.
    split; [exact Hrep|]. split; [constructor; assumption|].
    intros r' Hr'. apply elem_of_cons in Hr' as [->|Hr']; auto.
  - unfold DeviceModelPool.release in Hrel.
    destruct (bool_decide (slot ∈ DeviceModelPool.leases p)); [|discriminate].
    injection Hrel as <-. cbn.
    split; [exact Hrep|]. split; [apply NoDup_list_difference, Hnd|].
    intros r Hr. apply list_elem_of_difference in Hr as [Hr _]. auto.
  - split; [|split]; assumption.
Qed.

(** C9.  In every state a pool can reach by acquires and releases taken
    in any order, the replicas are the configured ones, the leases
    outstanding are no more than the replicas, no replica is leased twice,
    and every lease is on a replica of the pool. *)
Theorem pool_mutual_exclusion (device_index : list nat) (p : DeviceModelPool.pool) :
  DeviceModelPool.reachable device_index p ->
  DeviceModelPool.replicas p = list_to_set device_index
  /\ (length (DeviceModelPool.leases p) <= size (DeviceModelPool.replicas p))%nat
  /\ NoDup (DeviceModelPool.leases p)
  /\ (forall r, r ∈ DeviceModelPool.leases p -> r ∈ DeviceModelPool.replicas p).
Proof.
  intros Hreach.
  assert (Hinv : pool_invariant device_index p).
  { unfold DeviceModelPool.reachable in Hreach.
    apply (rtc_ind_r (R := DeviceModelPool.step) (pool_invariant device_index)
             (DeviceModelPool.create device_index)) with (z := p).
    - apply pool_invariant_create.
    - intros y z _ Hstep Hy. apply (pool_invariant_step _ y z Hstep Hy).
    - exact Hreach. }
  destruct Hinv as (Hrep & Hnd & Hsub).
  split; [exact Hrep|]. split; [|split; assumption].
  rewrite <- (size_list_to_set (C := gset nat) _ Hnd).
  apply subseteq_size. intros r Hr. apply elem_of_list_to_set in Hr. auto.
Qed.

Lemma pool_mutual_exclusion_witness :
  DeviceModelPool.replicas
    {| DeviceModelPool.replicas := list_to_set [0; 1]%nat;
       DeviceModelPool.leases := [1%nat] |} = list_to_set [0; 1]%nat
  /\ (length (DeviceModelPool.leases
                {| DeviceModelPool.replicas := list_to_set [0; 1]%nat;
                   DeviceModelPool.leases := [1%nat] |})
      <= size (DeviceModelPool.replicas
                 {| DeviceModelPool.replicas := list_to_set [0; 1]%nat;
                    DeviceModelPool.leases := [1%nat] |}))%nat
  /\ NoDup (DeviceModelPool.leases
              {| DeviceModelPool.replicas := list_to_set [0; 1]%nat;
                 DeviceModelPool.leases := [1%nat] |})
  /\ (forall r,
        r ∈ DeviceModelPool.leases
              {| DeviceModelPool.replicas := list_to_set [0; 1]%nat;
                 DeviceModelPool.leases := [1%nat] |} ->
        r ∈ DeviceModelPool.replicas
              {| DeviceModelPool.replicas := list_to_set [0; 1]%nat;
                 DeviceModelPool.leases := [1%nat] |}).
Proof.
  apply (pool_mutual_exclusion [0; 1]%nat).
  unfold DeviceModelPool.reachable.
  eapply rtc_l; [apply (DeviceModelPool.step_acquire _ _ 0%nat); reflexivity|].
  eapply rtc_l; [apply (DeviceModelPool.step_acquire _ _ 1%nat); reflexivity|].
  eapply rtc_l; [apply (DeviceModelPool.step_release _ _ 0%nat); reflexivity|].
  apply rtc_refl.
Defined.

(** While both replicas are leased a third acquire does not return, and a
    second release of the same slot is an error. *)
Example pool_exhausted_blocks :
  forall r,
    DeviceModelPool.acquire r
      {| DeviceModelPool.replicas := list_to_set [0; 1]%nat;
         DeviceModelPool.leases := [1; 0]%nat |} = None.
Proof.
  intros r. unfold DeviceModelPool.acquire, DeviceModelPool.is_free.
  cbn [DeviceModelPool.replicas DeviceModelPool.leases].
  destruct (bool_decide (r ∉ [1; 0]%nat)) eqn:Hfree;
    [|rewrite andb_false_r; reflexivity].
  apply bool_decide_eq_true in Hfree.
  rewrite bool_decide_eq_false_2; [reflexivity|].
  rewrite elem_of_list_to_set. intros Hin. apply Hfree.
  rewrite !elem_of_cons in *. tauto.
Qed.

Example pool_double_release :
  raise_explicit
    (DeviceModelPool.release 0 {| DeviceModelPool.replicas := list_to_set [0; 1]%nat;
                                  DeviceModelPool.leases := [1%nat] |}) = true.
Proof. reflexivity. Qed.

(** * Further properties *)

(** ** Both phases, on any list *)

Lemma merge_from_head (rest : list stamp) (cur : stamp) :
  exists x l,
    merge_from cur rest = x :: l
    /\ st_start x = st_start cur /\ st_speaker x = st_speaker cur.
Proof.
  revert cur. induction rest as [|nxt rest IH]; intros cur.
  - exists cur, []. auto.
  - cbn [merge_from].
    destruct (Qeq_bool (st_end cur) (st_start nxt)
              && Z.eqb (st_speaker cur) (st_speaker nxt)) eqn:Hcmp.
    + destruct (IH (st_start cur, st_end nxt, st_speaker nxt))
        as (x & l & Hx & Hs & Hk).
      exists x, l. split; [exact Hx|]. split; [exact Hs|].
      apply andb_true_iff in Hcmp as [_ Hz]. apply Z.eqb_eq in Hz.
      rewrite Hk. cbn [st_speaker snd]. symmetry. exact Hz.
    + exists cur, (merge_from nxt rest). auto.
Qed.

Lemma merge_from_not_same_turn (rest : list stamp) (cur : stamp) :
  adjacent not_same_turn (merge_from cur rest).
Proof.
  revert cur. induction rest as [|nxt rest IH]; intros cur; [exact I|].
  cbn [merge_from].
  destruct (Qeq_bool (st_end cur) (st_start nxt)
            && Z.eqb (st_speaker cur) (st_speaker nxt)) eqn:Hcmp; [apply IH|].
  apply adjacent_cons; [|apply IH].
  intros b Hb. destruct (merge_from_head rest nxt) as (x & l & Hx & Hs & Hk).
  rewrite Hx in Hb. injection Hb as <-.
  intros [Hq Hz]. rewrite Hs in Hq. rewrite Hk in Hz.
  apply Qeq_bool_iff in Hq. apply Z.eqb_eq in Hz.
  rewrite Hq, Hz in Hcmp. discriminate.
Qed.

Lemma merge_from_length (rest : list stamp) (cur : stamp) :
  (1 <= length (merge_from cur rest) <= S (length rest))%nat.
Proof.
  revert cur. induction rest as [|nxt rest IH]; intros cur; [simpl; lia|].
  cbn [merge_from].
  destruct (Qeq_bool (st_end cur) (st_start nxt)
            && Z.eqb (st_speaker cur) (st_speaker nxt)).
  - specialize (IH (st_start cur, st_end nxt, st_speaker nxt)). simpl. lia.
  - specialize (IH nxt). simpl. lia.
Qed.

Lemma merge_from_last (rest : list stamp) (cur : stamp) :
  exists x y,
    last (merge_from cur rest) = Some x /\ last (cur :: rest) = Some y
    /\ st_end x = st_end y /\ st_speaker x = st_speaker y.
Proof.
  revert cur. induction rest as [|nxt rest IH]; intros cur.
  - exists cur, cur. auto.
  - cbn [merge_from].
    destruct (Qeq_bool (st_end cur) (st_start nxt)
              && Z.eqb (st_speaker cur) (st_speaker nxt)).
    + destruct (IH (st_start cur, st_end nxt, st_speaker nxt))
        as (x & y & Hx & Hy & He & Hk).
      destruct (IH nxt) as (x' & y' & _ & Hy' & _).
      destruct rest as [|n2 rest].
      * cbn in Hx, Hy. injection Hx as <-. exists (st_start cur, st_end nxt, st_speaker nxt), nxt.
        cbn. auto.
      * exists x, y. split; [exact Hx|]. split; [exact Hy|]. auto.
    + destruct (IH nxt) as (x & y & Hx & Hy & He & Hk).
      exists x, y. split; [|split; [exact Hy | auto]].
      destruct (merge_from_head rest nxt) as (h & l & Hh & _).
      rewrite Hh in *. exact Hx.
Qed.

Lemma merge_from_no_overlap (rest : list stamp) (cur : stamp) :
  adjacent no_overlap (cur :: rest) -> adjacent no_overlap (merge_from cur rest).
Proof.
  revert cur. induction rest as [|nxt rest IH]; intros cur H; [exact I|].
  destruct H as [Hcn Htl]. cbn [merge_from].
  destruct (Qeq_bool (st_end cur) (st_start nxt)
            && Z.eqb (st_speaker cur) (st_speaker nxt)).
  - apply IH. destruct rest as [|n2 rest]; [exact I|].
    destruct Htl as [Hn Htl]. split; [exact Hn | exact Htl].
  - apply adjacent_cons; [|apply IH, Htl].
    intros b Hb. destruct (merge_from_head rest nxt) as (x & l & Hx & Hs & _).
    rewrite Hx in Hb. injection Hb as <-.
    unfold no_overlap in *. rewrite Hs. exact Hcn.
Qed.

Lemma merge_from_well_formed (rest : list stamp) (cur : stamp) :
  Forall well_formed (cur :: rest) -> Forall well_formed (merge_from cur rest).
Proof.
  revert cur. induction rest as [|nxt rest IH]; intros cur H; [exact H|].
  apply Forall_cons in H as [Hc H]. pose proof H as Hall.
  apply Forall_cons in H as [Hn H]. cbn [merge_from].
  destruct (Qeq_bool (st_end cur) (st_start nxt)
            && Z.eqb (st_speaker cur) (st_speaker nxt)) eqn:Hcmp.
  - apply IH. constructor; [|exact H].
    apply andb_true_iff in Hcmp as [Hq _]. apply Qeq_bool_iff in Hq.
    unfold well_formed in *. cbn [st_start st_end fst snd]. lra.
  - constructor; [exact Hc | apply IH, Hall].
Qed.

(** X1.  On every non-empty list [merge_stamps] returns a list in which no
    two neighbours both meet (the end of the first equals the start of
    the second) and have the same speaker. *)
Theorem merge_stamps_no_same_turn (stamps : list stamp) :
  stamps <> [] ->
  exists out,
    DiarizeService.merge_stamps stamps = Ok out
    /\ forall (i : nat) (a b : stamp),
         out !! i = Some a -> out !! S i = Some b ->
         ~ ((st_end a == st_start b)%Q /\ st_speaker a = st_speaker b).
Proof.
  intros Hne. destruct stamps as [|cur rest]; [congruence|].
  exists (merge_from cur rest). split; [apply merge_stamps_cons|].
  apply (adjacent_lookup not_same_turn), merge_from_not_same_turn.
Qed.

Lemma merge_stamps_no_same_turn_witness :
  exists out,
    DiarizeService.merge_stamps
      [(0, 3, 0%Z); (3, 6, 0%Z); (6, 7, 1%Z); (7, 9, 1%Z); (9, 10, 0%Z)]%Q = Ok out
    /\ forall (i : nat) (a b : stamp),
         out !! i = Some a -> out !! S i = Some b ->
         ~ ((st_end a == st_start b)%Q /\ st_speaker a = st_speaker b).
Proof.
  apply (merge_stamps_no_same_turn
           [(0, 3, 0%Z); (3, 6, 0%Z); (6, 7, 1%Z); (7, 9, 1%Z); (9, 10, 0%Z)]%Q).
  discriminate.
Defined.

(** X2.  On every non-empty list [merge_stamps] returns a list that is not
    empty and no longer than its input, starts where and with the speaker
    the input starts, and ends where and with the speaker the input ends;
    it keeps a list without overlaps free of overlaps, and stamps with
    start <= end remain so. *)
Theorem merge_stamps_span (stamps : list stamp) :
  stamps <> [] ->
  exists out first first' final final',
    DiarizeService.merge_stamps stamps = Ok out
    /\ (1 <= length out <= length stamps)%nat
    /\ head stamps = Some first /\ head out = Some first'
    /\ st_start first' = st_start first /\ st_speaker first' = st_speaker first
    /\ last stamps = Some final /\ last out = Some final'
    /\ st_end final' = st_end final /\ st_speaker final' = st_speaker final
    /\ (adjacent no_overlap stamps -> adjacent no_overlap out)
    /\ (Forall well_formed stamps -> Forall well_formed out).
Proof.
  intros Hne. destruct stamps as [|cur rest]; [congruence|].
  destruct (merge_from_head rest cur) as (x & l & Hx & Hs & Hk).
  destruct (merge_from_last rest cur) as (y' & y & Hy' & Hy & He & Hky).
  exists (merge_from cur rest), cur, x, y, y'.
  split; [apply merge_stamps_cons|].
  split; [apply merge_from_length|].
  split; [reflexivity|]. split; [rewrite Hx; reflexivity|].
  split; [exact Hs|]. split; [exact Hk|].
  split; [exact Hy|]. split; [exact Hy'|].
  split; [exact He|]. split; [exact Hky|].
  split; [apply merge_from_no_overlap | apply merge_from_well_formed].
Qed.

Lemma merge_stamps_span_witness :
  exists out first first' final final',
    DiarizeService.merge_stamps [(0, 3, 0%Z); (3, 6, 0%Z); (6, 7, 1%Z)]%Q = Ok out
    /\ (1 <= length out <= 3)%nat
    /\ head [(0, 3, 0%Z); (3, 6, 0%Z); (6, 7, 1%Z)]%Q = Some first
    /\ head out = Some first'
    /\ st_start first' = st_start first /\ st_speaker first' = st_speaker first
    /\ last [(0, 3, 0%Z); (3, 6, 0%Z); (6, 7, 1%Z)]%Q = Some final
    /\ last out = Some final'
    /\ st_end final' = st_end final /\ st_speaker final' = st_speaker final
    /\ (adjacent no_overlap [(0, 3, 0%Z); (3, 6, 0%Z); (6, 7, 1%Z)]%Q ->
        adjacent no_overlap out)
    /\ (Forall well_formed [(0, 3, 0%Z); (3, 6, 0%Z); (6, 7, 1%Z)]%Q ->
        Forall well_formed out).
Proof.
  apply (merge_stamps_span [(0, 3, 0%Z); (3, 6, 0%Z); (6, 7, 1%Z)]%Q).
  discriminate.
Defined.

(** X3.  Each phase, and the two in a row, fail on the empty list, with
    the [IndexError] of [stamps[-1]], and on no other list. *)
Theorem phases_fail_on_empty_only (stamps : list stamp) :
  (DiarizeService.get_contiguous_stamps stamps = Err (Builtin IndexError)
     <-> stamps = [])
  /\ (DiarizeService.merge_stamps stamps = Err (Builtin IndexError)
        <-> stamps = [])
  /\ (DiarizeService.reconcile stamps = Err (Builtin IndexError)
        <-> stamps = [])
  /\ (forall e, DiarizeService.reconcile stamps = Err e -> e = Builtin IndexError).
Proof.
  destruct stamps as [|cur rest].
  - repeat split; try reflexivity. intros e [= <-]. reflexivity.
  - assert (Hr : DiarizeService.reconcile (cur :: rest)
                 = DiarizeService.merge_stamps (contiguous_from cur rest)).
    { unfold DiarizeService.reconcile. rewrite get_contiguous_stamps_cons.
      reflexivity. }
    destruct (contiguous_from_head rest cur) as (x & l & Hx & _).
    rewrite Hr, Hx, get_contiguous_stamps_cons, !merge_stamps_cons.
    repeat split; intros; discriminate.
Qed.

(** ** Phase A, on any list *)

Lemma contiguous_from_inside (rest : list stamp) (cur : stamp) :
  Forall2 inside (cur :: rest) (contiguous_from cur rest).
Proof.
  revert cur. induction rest as [|nxt rest IH]; intros cur.
  - constructor; [|constructor].
    unfold inside. split; [apply Qle_refl|]. split; [apply Qle_refl | reflexivity].
  - cbn [contiguous_from].
    destruct (Qgtb (st_end cur) (st_start nxt)) eqn:Hcmp.
    + apply Qgtb_true in Hcmp. constructor.
      * unfold inside. cbn [st_start st_end st_speaker fst snd].
        split; [apply Qle_refl|]. split; [stamp_arith | reflexivity].
      * specialize (IH (((st_start nxt + st_end cur) / 2)%Q, st_end nxt,
                        st_speaker nxt)).
        inversion IH as [|i o li lo Hio Htl]; subst.
        constructor; [|exact Htl].
        destruct Hio as (Hos & Hoe & Hok). unfold inside.
        cbn [st_start st_end st_speaker fst snd] in *.
        split; [stamp_arith|]. split; assumption.
    + constructor; [|apply IH].
      unfold inside. split; [apply Qle_refl|]. split; [apply Qle_refl | reflexivity].
Qed.

Lemma contiguous_from_last (rest : list stamp) (cur : stamp) :
  exists x y,
    last (contiguous_from cur rest) = Some x /\ last (cur :: rest) = Some y
    /\ st_end x = st_end y.
Proof.
  revert cur. induction rest as [|nxt rest IH]; intros cur.
  - exists cur, cur. auto.
  - cbn [contiguous_from].
    destruct (Qgtb (st_end cur) (st_start nxt)).
    + destruct (IH (((st_start nxt + st_end cur) / 2)%Q, st_end nxt,
                    st_speaker nxt)) as (x & y & Hx & Hy & He).
      destruct (contiguous_from_head rest
                  (((st_start nxt + st_end cur) / 2)%Q, st_end nxt,
                   st_speaker nxt)) as (h & l & Hh & _).
      destruct rest as [|n2 rest].
      * cbn in Hx. injection Hx as <-. exists (((st_start nxt + st_end cur) / 2)%Q, st_end nxt, st_speaker nxt), nxt.
        cbn. auto.
      * exists x, y. split; [|split; [exact Hy | exact He]].
        rewrite Hh in *. exact Hx.
    + destruct (IH nxt) as (x & y & Hx & Hy & He).
      destruct (contiguous_from_head rest nxt) as (h & l & Hh & _).
      exists x, y. split; [|split; [exact Hy | exact He]].
      rewrite Hh in *. exact Hx.
Qed.

(** X4.  On every non-empty list [get_contiguous_stamps] only trims: the
    stamp returned at each position has the speaker of the stamp given at
    that position, starts no earlier and ends no later; the first start
    and the last end are untouched. *)
Theorem get_contiguous_stamps_trims (stamps : list stamp) :
  stamps <> [] ->
  exists out first first' final final',
    DiarizeService.get_contiguous_stamps stamps = Ok out
    /\ Forall2 inside stamps out
    /\ head stamps = Some first /\ head out = Some first'
    /\ st_start first' = st_start first
    /\ last stamps = Some final /\ last out = Some final'
    /\ st_end final' = st_end final.
Proof.
  intros Hne. destruct stamps as [|cur rest]; [congruence|].
  destruct (contiguous_from_head rest cur) as (x & l & Hx & Hs).
  destruct (contiguous_from_last rest cur) as (y' & y & Hy' & Hy & He).
  exists (contiguous_from cur rest), cur, x, y, y'.
  split; [apply get_contiguous_stamps_cons|].
  split; [apply contiguous_from_inside|].
  split; [reflexivity|]. split; [rewrite Hx; reflexivity|].
  split; [exact Hs|]. split; [exact Hy|]. split; [exact Hy' | exact He].
Qed.

Lemma get_contiguous_stamps_trims_witness :
  exists out first first' final final',
    DiarizeService.get_contiguous_stamps
      [(0, 100, 0%Z); (1, 2, 1%Z); (3 # 2, 7, 0%Z)]%Q = Ok out
    /\ Forall2 inside [(0, 100, 0%Z); (1, 2, 1%Z); (3 # 2, 7, 0%Z)]%Q out
    /\ head [(0, 100, 0%Z); (1, 2, 1%Z); (3 # 2, 7, 0%Z)]%Q = Some first
    /\ head out = Some first'
    /\ st_start first' = st_start first
    /\ last [(0, 100, 0%Z); (1, 2, 1%Z); (3 # 2, 7, 0%Z)]%Q = Some final
    /\ last out = Some final'
    /\ st_end final' = st_end final.
Proof.
  apply (get_contiguous_stamps_trims
           [(0, 100, 0%Z); (1, 2, 1%Z); (3 # 2, 7, 0%Z)]%Q).
  discriminate.
Defined.

(** ** The two phases in a row *)

Lemma contiguous_ordered (l : list stamp) :
  adjacent no_overlap l -> Forall well_formed l ->
  adjacent by_start l /\ adjacent by_end l.
Proof.
  induction l as [|a l IH]; intros Hadj Hwf; [split; exact I|].
  destruct l as [|b l]; [split; exact I|].
  destruct Hadj as [Hab Hadj]. apply Forall_cons in Hwf as [Ha Hwf].
  destruct (IH Hadj Hwf) as [Hs He]. pose proof (Forall_inv Hwf) as Hb.
  unfold no_overlap, well_formed, by_start, by_end in *.
  split; (split; [lra | assumption]).
Qed.

Lemma reconcile_cons (cur : stamp) (rest : list stamp) :
  exists x l,
    contiguous_from cur rest = x :: l
    /\ DiarizeService.reconcile (cur :: rest) = Ok (merge_from x l).
Proof.
  destruct (contiguous_from_head rest cur) as (x & l & Hx & _).
  exists x, l. split; [exact Hx|].
  unfold DiarizeService.reconcile. rewrite get_contiguous_stamps_cons, Hx.
  cbn [mbind result_bind]. apply merge_stamps_cons.
Qed.

(** X5.  On every non-empty list the two phases in a row return a list
    that they leave unchanged when applied to it again. *)
Theorem reconcile_idempotent (stamps : list stamp) :
  stamps <> [] ->
  exists out,
    DiarizeService.reconcile stamps = Ok out
    /\ DiarizeService.reconcile out = Ok out.
Proof.
  intros Hne. destruct stamps as [|cur rest]; [congruence|].
  destruct (reconcile_cons cur rest) as (x & l & Hx & Hrec).
  exists (merge_from x l). split; [exact Hrec|].
  assert (Ha : adjacent no_overlap (merge_from x l)).
  { apply merge_from_no_overlap. rewrite <- Hx. apply contiguous_from_no_overlap. }
  pose proof (merge_from_not_same_turn l x) as Hb.
  destruct (merge_from_head l x) as (y & m & Hy & _). rewrite Hy in *.
  destruct (reconcile_cons y m) as (x' & l' & Hx' & Hrec').
  rewrite Hrec'. rewrite (contiguous_from_fixed m y Ha) in Hx'.
  injection Hx' as <- <-. f_equal. apply merge_from_fixed, Hb.
Qed.

Lemma reconcile_idempotent_witness :
  exists out,
    DiarizeService.reconcile
      [(0, 5, 0%Z); (4, 9, 0%Z); (9, 19 # 2, 0%Z); (9, 12, 1%Z)]%Q = Ok out
    /\ DiarizeService.reconcile out = Ok out.
Proof.
  apply (reconcile_idempotent
           [(0, 5, 0%Z); (4, 9, 0%Z); (9, 19 # 2, 0%Z); (9, 12, 1%Z)]%Q).
  discriminate.
Defined.

(** X6.  On a non-empty list ordered by start and by end whose stamps have
    start <= end, the two phases in a row return a list, no longer than
    the input, with the same first start and last end, in which every
    stamp has start <= end, no stamp ends after the next one starts, the
    starts and the ends are in order, and no two neighbours both meet and
    have the same speaker. *)
Theorem reconcile_ordered (stamps : list stamp) :
  stamps <> [] ->
  adjacent by_start stamps ->
  adjacent by_end stamps ->
  Forall well_formed stamps ->
  exists out first first' final final',
    DiarizeService.reconcile stamps = Ok out
    /\ (1 <= length out <= length stamps)%nat
    /\ head stamps = Some first /\ head out = Some first'
    /\ st_start first' = st_start first
    /\ last stamps = Some final /\ last out = Some final'
    /\ st_end final' = st_end final
    /\ Forall well_formed out
    /\ adjacent no_overlap out
    /\ adjacent by_start out
    /\ adjacent by_end out
    /\ adjacent not_same_turn out.
Proof.
  intros Hne Hs He Hwf. destruct stamps as [|cur rest]; [congruence|].
  destruct (reconcile_cons cur rest) as (x & l & Hx & Hrec).
  assert (Hwf1 : Forall well_formed (x :: l)).
  { rewrite <- Hx. pose proof Hwf as Hwf'.
    apply Forall_cons in Hwf' as [Hcur Hrest].
    apply contiguous_from_well_formed.
    - exact Hcur.
    - intros nxt Hnxt. destruct rest as [|n rest]; [discriminate|].
      injection Hnxt as ->. destruct Hs as [Hs _]. destruct He as [He _].
      unfold well_formed, by_start, by_end in *. split; [stamp_arith | exact He].
    - exact Hrest.
    - apply (adjacent_tail _ _ _ Hs).
    - apply (adjacent_tail _ _ _ He). }
  assert (Hno1 : adjacent no_overlap (x :: l))
    by (rewrite <- Hx; apply contiguous_from_no_overlap).
  pose proof (merge_from_well_formed l x Hwf1) as Hwf2.
  pose proof (merge_from_no_overlap l x Hno1) as Hno2.
  destruct (contiguous_ordered _ Hno2 Hwf2) as [Hs2 He2].
  destruct (contiguous_from_head rest cur) as (x0 & l0 & Hx0 & Hstart).
  rewrite Hx in Hx0. injection Hx0 as <- <-.
  destruct (contiguous_from_last rest cur) as (y1 & y & Hy1 & Hy & Hend1).
  rewrite Hx in Hy1.
  destruct (merge_from_head l x) as (h & m & Hh & Hhs & _).
  destruct (merge_from_last l x) as (y2 & y1' & Hy2 & Hy1' & Hend2 & _).
  rewrite Hy1 in Hy1'. injection Hy1' as <-.
  exists (merge_from x l), cur, h, y, y2.
  split; [exact Hrec|].
  split.
  { pose proof (merge_from_length l x) as Hlen.
    pose proof (contiguous_from_length rest cur) as Hlen1.
    rewrite Hx in Hlen1. cbn [length] in *. lia. }
  split; [reflexivity|]. split; [rewrite Hh; reflexivity|].
  split; [rewrite Hhs; exact Hstart|].
  split; [exact Hy|]. split; [exact Hy2|].
  split; [rewrite Hend2; exact Hend1|].
  split; [exact Hwf2|]. split; [exact Hno2|].
  split; [exact Hs2|]. split; [exact He2|].
  apply merge_from_not_same_turn.
Qed.

Lemma reconcile_ordered_witness :
  exists out first first' final final',
    DiarizeService.reconcile
      [(0, 5, 0%Z); (4, 9, 0%Z); (9, 19 # 2, 0%Z); (9, 12, 1%Z)]%Q = Ok out
    /\ (1 <= length out <= 4)%nat
    /\ head [(0, 5, 0%Z); (4, 9, 0%Z); (9, 19 # 2, 0%Z); (9, 12, 1%Z)]%Q
       = Some first
    /\ head out = Some first'
    /\ st_start first' = st_start first
    /\ last [(0, 5, 0%Z); (4, 9, 0%Z); (9, 19 # 2, 0%Z); (9, 12, 1%Z)]%Q
       = Some final
    /\ last out = Some final'
    /\ st_end final' = st_end final
    /\ Forall well_formed out
    /\ adjacent no_overlap out
    /\ adjacent by_start out
    /\ adjacent by_end out
    /\ adjacent not_same_turn out.
Proof.
  apply (reconcile_ordered
           [(0, 5, 0%Z); (4, 9, 0%Z); (9, 19 # 2, 0%Z); (9, 12, 1%Z)]%Q).
  - discriminate.
  - concrete_stamps.
  - concrete_stamps.
  - concrete_stamps.
Defined.

(** ** The diarization service: construction and call *)

Lemma foldl_insert_lookup {V : Type} (f : nat -> V) (l : list nat)
    (m : gmap nat V) (idx : nat) :
  foldl (fun (m : gmap nat V) i => <[i := f i]> m) m l !! idx
  = if decide (idx ∈ l) then Some (f idx) else m !! idx.
Proof.
  revert m. induction l as [|a l IH]; intros m.
  - cbn [foldl]. destruct (decide (idx ∈ [])) as [H|_]; [inversion H | reflexivity].
  - cbn [foldl]. rewrite IH.
    destruct (decide (idx ∈ l)) as [Hin|Hnin].
    + rewrite decide_True by (apply elem_of_cons; auto). reflexivity.
    + destruct (decide (idx = a)) as [->|Hne].
      * rewrite decide_True by (apply elem_of_cons; auto).
        apply lookup_insert_eq.
      * rewrite decide_False by (rewrite elem_of_cons; tauto).
        apply lookup_insert_ne. congruence.
Qed.

Lemma init_ok (device : string) (device_index : list nat)
    (ws ss mw : list Q) (max_num_speakers : Z) :
  length ws = length ss ->
  exists self,
    DiarizeService.init device device_index ws ss mw max_num_speakers = Ok self
    /\ pairs_scales (DiarizeService.default_scale_dict self) ws ss
    /\ forall idx : nat,
         DiarizeService.models self !! idx
         = if decide (idx ∈ device_index)
           then Some {| DiarizeService.dm_device :=
                          if String.eqb device "cuda"
                          then "cuda:" +:+ pretty idx else "cpu";
                        DiarizeService.dm_max_num_speakers := max_num_speakers |}
           else None.
Proof.
  intros Hlen. destruct (scale_dict_of_ok ws ss Hlen) as (d & Hd & Hp).
  unfold DiarizeService.init. rewrite Hd. cbn [mbind result_bind].
  eexists. split; [reflexivity|].
  cbn [DiarizeService.default_scale_dict DiarizeService.models].
  split; [exact Hp|]. intros idx.
  rewrite (foldl_insert_lookup
             (fun idx => {| DiarizeService.dm_device :=
                              if String.eqb device "cuda"
                              then "cuda:" +:+ pretty idx else "cpu";
                            DiarizeService.dm_max_num_speakers := max_num_speakers |})).
  destruct (decide (idx ∈ device_index)); [reflexivity | apply lookup_empty].
Qed.

Lemma init_error (device : string) (device_index : list nat)
    (ws ss mw : list Q) (max_num_speakers : Z) :
  length ws <> length ss ->
  DiarizeService.init device device_index ws ss mw max_num_speakers
  = Err (Builtin ValueError).
Proof.
  intros Hlen. unfold DiarizeService.init.
  rewrite (scale_dict_of_error ws ss Hlen). reflexivity.
Qed.

(** X7.  [__init__] fails, with the [ValueError] of the strict zip, exactly
    when the window and shift lists differ in length.  Otherwise the
    service has one entry of models per configured device index and no
    other, on device ["cuda:<index>"] when the device is ["cuda"] and on
    ["cpu"] for any other device, and its default scales pair the windows
    with the shifts. *)
Theorem init_models (device : string) (device_index : list nat)
    (ws ss mw : list Q) (max_num_speakers : Z) :
  (length ws <> length ss <->
     DiarizeService.init device device_index ws ss mw max_num_speakers
       = Err (Builtin ValueError))
  /\ (length ws = length ss <->
      exists self,
        DiarizeService.init device device_index ws ss mw max_num_speakers = Ok self
        /\ pairs_scales (DiarizeService.default_scale_dict self) ws ss
        /\ forall idx : nat,
             DiarizeService.models self !! idx
             = if decide (idx ∈ device_index)
               then Some {| DiarizeService.dm_device :=
                              if String.eqb device "cuda"
                              then "cuda:" +:+ pretty idx else "cpu";
                            DiarizeService.dm_max_num_speakers := max_num_speakers |}
               else None).
Proof.
  destruct (decide (length ws = length ss)) as [Hlen|Hlen].
  - destruct (init_ok device device_index ws ss mw max_num_speakers Hlen)
      as (self & Hinit & Hrest).
    split; split.
    + congruence.
    + rewrite Hinit. discriminate.
    + intros _. exists self. auto.
    + intros _. exact Hlen.
  - pose proof (init_error device device_index ws ss mw max_num_speakers Hlen)
      as Herr.
    split; split.
    + intros _. exact Herr.
    + intros _. exact Hlen.
    + contradiction.
    + intros (self & Hinit & _). rewrite Herr in Hinit. discriminate.
Qed.

Section CallRuns.
Context {Waveform Interval Embeddings : Type}.
Variable vad_service : Waveform -> list Interval.
Variable segmentation :
  DiarizeService.DiarizationModels -> Waveform -> Z -> list Interval ->
  gmap nat (Q * Q) -> list Q -> Embeddings.
Variable clustering :
  DiarizeService.DiarizationModels -> Embeddings -> Z -> list stamp.

(** X8.  With speech, on a service built by [__init__], a model index
    that is not one of the configured device indices makes the call fail
    with [KeyError] once the parameters are selected: the VAD is the only
    network that has run. *)
Theorem call_unknown_model (device : string) (device_index : list nat)
    (ws ss mw : list Q) (max_num_speakers : Z) (self : DiarizeService.t)
    (waveform : Waveform) (audio_duration : Q) (oracle_num_speakers : Z)
    (model_index : nat)
    (calls : list (DiarizeService.event (Waveform := Waveform)))
    (params : gmap nat (Q * Q) * Z * list Q) :
  DiarizeService.init device device_index ws ss mw max_num_speakers = Ok self ->
  vad_service waveform <> [] ->
  DiarizeService.select_parameters self audio_duration = Ok params ->
  model_index ∉ device_index ->
  DiarizeService.call vad_service segmentation clustering self waveform
    audio_duration oracle_num_speakers model_index calls
  = (Err (Builtin KeyError), calls ++ [DiarizeService.CalledVad waveform]).
Proof.
  intros Hinit Hvad Hsel Hidx.
  assert (Hm : DiarizeService.models self !! model_index = None).
  { destruct (decide (length ws = length ss)) as [Hlen|Hlen].
    - destruct (init_ok device device_index ws ss mw max_num_speakers Hlen)
        as (self' & Hinit' & _ & Hmodels).
      rewrite Hinit' in Hinit. injection Hinit as <-.
      rewrite Hmodels, decide_False by exact Hidx. reflexivity.
    - rewrite (init_error _ _ _ _ _ _ Hlen) in Hinit. discriminate. }
  unfold DiarizeService.call, DiarizeService.log, DiarizeService.get_model,
    lift, mbind, mret, prog_bind, prog_ret.
  destruct (vad_service waveform) as [|iv ivs]; [congruence|].
  cbn [length Nat.eqb]. rewrite Hsel. destruct params as [[sd b] w].
  rewrite Hm. reflexivity.
Qed.
(** X9.  With speech, on a service built by [__init__] and for a model
    index among the configured device indices, the call runs the
    segmentation once with the selected parameters and then the clustering
    once, both on the model of that index.  If the clustering returns no
    stamp the call fails with [IndexError]; otherwise it returns the two
    phases applied to the stamps of the clustering, a list that is never
    empty. *)
Theorem call_with_speech (device : string) (device_index : list nat)
    (ws ss mw : list Q) (max_num_speakers : Z) (self : DiarizeService.t)
    (waveform : Waveform) (audio_duration : Q) (oracle_num_speakers : Z)
    (model_index : nat)
    (calls : list (DiarizeService.event (Waveform := Waveform)))
    (scale_dict : gmap nat (Q * Q)) (batch_size : Z) (weights : list Q) :
  DiarizeService.init device device_index ws ss mw max_num_speakers = Ok self ->
  vad_service waveform <> [] ->
  DiarizeService.select_parameters self audio_duration
    = Ok (scale_dict, batch_size, weights) ->
  model_index ∈ device_index ->
  let m := {| DiarizeService.dm_device :=
                if String.eqb device "cuda"
                then "cuda:" +:+ pretty model_index else "cpu";
              DiarizeService.dm_max_num_speakers := max_num_speakers |} in
  let clustering_outputs :=
    clustering m
      (segmentation m waveform batch_size (vad_service waveform) scale_dict
         weights)
      oracle_num_speakers in
  exists outcome,
    DiarizeService.call vad_service segmentation clustering self waveform
      audio_duration oracle_num_speakers model_index calls
    = (outcome,
       calls ++ [DiarizeService.CalledVad waveform;
                 DiarizeService.CalledSegmentation m batch_size scale_dict weights;
                 DiarizeService.CalledClustering m oracle_num_speakers])
    /\ (clustering_outputs = [] -> outcome = Err (Builtin IndexError))
    /\ (clustering_outputs <> [] ->
        exists out,
          outcome = Ok (Some out) /\ out <> []
          /\ DiarizeService.reconcile clustering_outputs = Ok out).
Proof.
  intros Hinit Hvad Hsel Hidx m clustering_outputs.
  assert (Hm : DiarizeService.models self !! model_index = Some m).
  { destruct (decide (length ws = length ss)) as [Hlen|Hlen].
    - destruct (init_ok device device_index ws ss mw max_num_speakers Hlen)
        as (self' & Hinit' & _ & Hmodels).
      rewrite Hinit' in Hinit. injection Hinit as <-.
      rewrite Hmodels, decide_True by exact Hidx. reflexivity.
    - rewrite (init_error _ _ _ _ _ _ Hlen) in Hinit. discriminate. }
  eexists. split.
  - apply (call_uses_selected_parameters vad_service segmentation clustering
             self waveform audio_duration oracle_num_speakers model_index calls
             scale_dict batch_size weights m Hvad Hsel Hm).
  - fold clustering_outputs. split.
    + intros ->. reflexivity.
    + intros Hne. destruct clustering_outputs as [|cur rest]; [congruence|].
      destruct (reconcile_cons cur rest) as (x & l & _ & Hrec).
      destruct (merge_from_head l x) as (h & t & Hh & _).
      exists (merge_from x l). rewrite Hrec. cbn [fmap result_fmap].
      split; [reflexivity|]. split; [rewrite Hh; discriminate | reflexivity].
Qed.
End CallRuns.

Lemma call_unknown_model_witness :
  exists self,
    DiarizeService.init "cuda" [0%nat; 1%nat] [3 # 2; 1]%Q [3 # 4; 1 # 2]%Q
      [1; 1]%Q 8 = Ok self
    /\ DiarizeService.call
         (fun _ : list Q => [(0, 1)%Q])
         (fun _ _ _ _ _ _ => tt)
         (fun _ _ _ => [(0, 5, 0%Z); (4, 9, 1%Z)]%Q)
         self [] 10 2 7%nat []
       = (Err (Builtin KeyError), [DiarizeService.CalledVad []]).
Proof.
  destruct (DiarizeService.init "cuda" [0%nat; 1%nat] [3 # 2; 1]%Q
              [3 # 4; 1 # 2]%Q [1; 1]%Q 8)
    as [self|e] eqn:Hinit; [|vm_compute in Hinit; discriminate Hinit].
  exists self. split; [reflexivity|].
  destruct (DiarizeService.select_parameters self 10) as [params|e] eqn:Hsel.
  - apply (call_unknown_model (fun _ : list Q => [(0, 1)%Q])
             (fun _ _ _ _ _ _ => tt)
             (fun _ _ _ => [(0, 5, 0%Z); (4, 9, 1%Z)]%Q)
             _ _ _ _ _ _ self [] 10 2 7%nat [] params Hinit).
    + discriminate.
    + exact Hsel.
    + rewrite !elem_of_cons, elem_of_nil. lia.
  - unfold DiarizeService.select_parameters in Hsel.
    change (Qltb 10 3600) with true in Hsel. discriminate Hsel.
Defined.

Lemma call_with_speech_witness :
  exists self outcome,
    DiarizeService.init "cuda" [0%nat; 1%nat] [3 # 2; 1]%Q [3 # 4; 1 # 2]%Q
      [1; 1]%Q 8 = Ok self
    /\ fst (DiarizeService.call
              (fun _ : list Q => [(0, 1)%Q])
              (fun _ _ _ _ _ _ => tt)
              (fun _ _ _ => [(0, 5, 0%Z); (4, 9, 1%Z)]%Q)
              self [] 10800 2 1%nat []) = outcome
    /\ (exists out, outcome = Ok (Some out) /\ out <> []).
Proof.
  destruct (DiarizeService.init "cuda" [0%nat; 1%nat] [3 # 2; 1]%Q
              [3 # 4; 1 # 2]%Q [1; 1]%Q 8)
    as [self|e] eqn:Hinit; [|vm_compute in Hinit; discriminate Hinit].
  destruct (DiarizeService.select_parameters self 10800)
    as [[[sd b] w]|e] eqn:Hsel;
    [|unfold DiarizeService.select_parameters in Hsel;
      change (Qltb 10800 3600) with false in Hsel;
      change (Qltb 10800 10800) with false in Hsel;
      vm_compute in Hsel; discriminate Hsel].
  destruct (call_with_speech (fun _ : list Q => [(0, 1)%Q])
              (fun _ _ _ _ _ _ => tt)
              (fun _ _ _ => [(0, 5, 0%Z); (4, 9, 1%Z)]%Q)
              _ _ _ _ _ _ self [] 10800 2 1%nat [] sd b w Hinit)
    as (outcome & Hcall & _ & Hsome).
  - discriminate.
  - exact Hsel.
  - rewrite !elem_of_cons. auto.
  - exists self, outcome. split; [reflexivity|].
    split; [rewrite Hcall; reflexivity|].
    destruct Hsome as (out & Ho & Hne & _); [discriminate|].
    exists out. auto.
Defined.

(** ** The transcription service: how often the model runs *)

Section Invocations.
Context {Audio ModelState : Type}.
Variable transcribe :
  ModelState -> Audio -> TranscribeService.transcribe_kwargs ->
  result (list TranscribeService.Segment) * ModelState.

Import TranscribeService.

End Invocations.

(** ** Channels *)

Lemma segments_loop_outcome (speaker_id : nat)
    (segments : list TranscribeService.Segment)
    (final_transcript : list TranscribeService.segment_dict) :
  (Forall has_words segments
   /\ exists out,
        TranscribeService.segments_loop speaker_id segments final_transcript
          = Ok (final_transcript ++ out)
        /\ Forall2 (emitted_from speaker_id) segments out)
  \/ (exists pre s post,
        segments = pre ++ s :: post /\ Forall has_words pre
        /\ ((TranscribeService.seg_words s = None
             /\ TranscribeService.segments_loop speaker_id segments final_transcript
                = Err (Builtin TypeError))
            \/ (TranscribeService.seg_words s = Some []
                /\ TranscribeService.segments_loop speaker_id segments
                     final_transcript = Err (Builtin IndexError)))).
Proof.
  revert final_transcript.
  induction segments as [|s segments IH]; intros acc.
  - left. split; [constructor|]. exists []. rewrite app_nil_r.
    split; [reflexivity | constructor].
  - cbn [TranscribeService.segments_loop].
    destruct (TranscribeService.seg_words s) as [[|word words]|] eqn:Hw.
    + right. exists [], s, segments. split; [reflexivity|]. split; [constructor|].
      right. split; [exact Hw|].
      rewrite (segment_dict_of_no_word speaker_id s Hw). reflexivity.
    + destruct (segment_dict_of_words speaker_id s word words Hw)
        as (d & final & Hd & Hlast & H1 & H2 & H3 & H4 & H5).
      rewrite Hd. cbn [mbind result_bind].
      destruct (IH (acc ++ [d])) as [[Hall (out & Hout & Hem)]
                                    |(pre & s' & post & Hsplit & Hpre & Hcase)].
      * left. split; [constructor; [exists word, words; exact Hw | exact Hall]|].
        exists (d :: out). rewrite Hout, <- app_assoc. split; [reflexivity|].
        constructor; [|exact Hem].
        exists (word :: words), word, final. rewrite Hw. auto 10.
      * right. exists (s :: pre), s', post.
        split; [rewrite Hsplit; reflexivity|].
        split; [constructor; [exists word, words; exact Hw | exact Hpre]|].
        exact Hcase.
    + right. exists [], s, segments. split; [reflexivity|]. split; [constructor|].
      left. split; [exact Hw|].
      unfold TranscribeService.segment_dict_of. rewrite Hw. reflexivity.
Qed.

Section ChannelOutcome.
Context {Audio ModelState : Type}.
Variable transcribe :
  ModelState -> Audio -> TranscribeService.transcribe_kwargs ->
  result (list TranscribeService.Segment) * ModelState.

Import TranscribeService.

(** X11.  When the model returns segments, [multi_channel] returns one
    dictionary per segment exactly when every segment has at least one
    word.  Otherwise it fails on the first segment that has none: with
    [TypeError] if that segment carries no list of words, with
    [IndexError] if its list is empty. *)
Theorem multi_channel_outcome (audio : Audio) (source_lang : string)
    (speaker_id : nat) (suppress_blank word_timestamps internal_vad : bool)
    (repetition_penalty compression_ratio_threshold log_prob_threshold
       no_speech_threshold : Q)
    (condition_on_previous_text : bool) (prompt : option string)
    (w : world (Audio := Audio) (ModelState := ModelState))
    (segments : list Segment) :
  fst (transcribe (model_state w) audio
         {| language := source_lang;
            initial_prompt := prompt;
            kw_repetition_penalty := repetition_penalty;
            kw_compression_ratio_threshold := compression_ratio_threshold;
            kw_log_prob_threshold := log_prob_threshold;
            kw_no_speech_threshold := no_speech_threshold;
            kw_condition_on_previous_text := condition_on_previous_text;
            kw_suppress_blank := suppress_blank;
            kw_word_timestamps := word_timestamps;
            vad_filter := internal_vad;
            vad_parameters := Some the_vad_parameters |}) = Ok segments ->
  let outcome :=
    fst (multi_channel transcribe audio source_lang speaker_id suppress_blank
           word_timestamps internal_vad repetition_penalty
           compression_ratio_threshold log_prob_threshold no_speech_threshold
           condition_on_previous_text prompt w) in
  ((exists out, outcome = Ok out) <-> Forall has_words segments)
  /\ (forall out, outcome = Ok out -> Forall2 (emitted_from speaker_id) segments out)
  /\ (outcome = Err (Builtin TypeError) <->
      exists pre s post,
        segments = pre ++ s :: post /\ Forall has_words pre /\ seg_words s = None)
  /\ (outcome = Err (Builtin IndexError) <->
      exists pre s post,
        segments = pre ++ s :: post /\ Forall has_words pre
        /\ seg_words s = Some []).
Proof.
  intros Hmodel outcome. subst outcome.
  unfold multi_channel, mbind, prog_bind, model_transcribe, lift.
  destruct (transcribe (model_state w) audio _) as [r ms1].
  cbn [fst] in Hmodel. subst r. cbn [fst].
  assert (Hfirst : forall pre pre' s s' post post',
             pre ++ s :: post = pre' ++ s' :: post' ->
             Forall has_words pre -> Forall has_words pre' ->
             ~ has_words s -> ~ has_words s' -> s = s').
  { induction pre as [|p pre IHp]; intros pre' s s' post post' Heq Hp Hp' Hs Hs'.
    - destruct pre' as [|p' pre']; cbn in Heq.
      + congruence.
      + injection Heq as -> _. apply Forall_cons in Hp' as [Hp' _]. contradiction.
    - destruct pre' as [|p' pre']; cbn in Heq.
      + injection Heq as <- _. apply Forall_cons in Hp as [Hp _]. contradiction.
      + injection Heq as _ Heq. apply Forall_cons in Hp as [_ Hp].
        apply Forall_cons in Hp' as [_ Hp'].
        apply (IHp pre' s s' post post' Heq Hp Hp' Hs Hs'). }
  assert (Hnone : forall s, seg_words s = None -> ~ has_words s)
    by (intros s Hs (x & xs & Hx); congruence).
  assert (Hnil : forall s, seg_words s = Some [] -> ~ has_words s)
    by (intros s Hs (x & xs & Hx); congruence).
  assert (Hbad : forall pre s post,
             segments = pre ++ s :: post -> ~ has_words s ->
             ~ Forall has_words segments).
  { intros pre s post -> Hs Hall. apply Forall_app in Hall as [_ Hall].
    apply Forall_cons in Hall as [Hall _]. contradiction. }
  destruct (segments_loop_outcome speaker_id segments [])
    as [[Hall (out & Hout & Hem)]
       |(pre & s & post & Hsplit & Hpre & [[Hs Hrun]|[Hs Hrun]])];
    cbn [app] in *; rewrite ?Hout, ?Hrun.
  - split; [split; [intros _; exact Hall | intros _; exists out; reflexivity]|].
    split; [intros out' [= <-]; exact Hem|].
    split; (split; [discriminate|]);
      intros (pre & s & post & Hsplit & _ & Hs);
      exfalso; eapply Hbad; eauto.
  - split; [split; [intros (o & Ho); discriminate
                   | intros Hall; exfalso; eapply Hbad; eauto]|].
    split; [intros o Ho; discriminate|].
    split; [split; [intros _; exists pre, s, post; auto | reflexivity]|].
    split; [discriminate|].
    intros (pre' & s' & post' & Hsplit' & Hpre' & Hs').
    rewrite Hsplit in Hsplit'.
    rewrite (Hfirst pre pre' s s' post post' Hsplit' Hpre Hpre'
               (Hnone s Hs) (Hnil s' Hs')) in Hs.
    congruence.
  - split; [split; [intros (o & Ho); discriminate
                   | intros Hall; exfalso; eapply Hbad; eauto]|].
    split; [intros o Ho; discriminate|].
    split; [split; [discriminate|]|
            split; [intros _; exists pre, s, post; auto | reflexivity]].
    intros (pre' & s' & post' & Hsplit' & Hpre' & Hs').
    rewrite Hsplit in Hsplit'.
    rewrite (Hfirst pre pre' s s' post post' Hsplit' Hpre Hpre'
               (Hnil s Hs) (Hnone s' Hs')) in Hs.
    congruence.
Qed.
End ChannelOutcome.

Lemma multi_channel_outcome_witness :
  let outcome :=
    fst (TranscribeService.multi_channel Stub.malformed tt "en" 1 false true
           true 1 (12 # 5) (- (1)) (3 # 5) false None Stub.fresh) in
  ((exists out, outcome = Ok out)
     <-> Forall has_words [Stub.hello; Stub.wordless; Stub.bye])
  /\ (forall out, outcome = Ok out ->
      Forall2 (emitted_from 1) [Stub.hello; Stub.wordless; Stub.bye] out)
  /\ (outcome = Err (Builtin TypeError) <->
      exists pre s post,
        [Stub.hello; Stub.wordless; Stub.bye] = pre ++ s :: post
        /\ Forall has_words pre /\ TranscribeService.seg_words s = None)
  /\ (outcome = Err (Builtin IndexError) <->
      exists pre s post,
        [Stub.hello; Stub.wordless; Stub.bye] = pre ++ s :: post
        /\ Forall has_words pre /\ TranscribeService.seg_words s = Some []).
Proof.
  apply (multi_channel_outcome Stub.malformed tt "en" 1 false true true 1
           (12 # 5) (- (1)) (3 # 5) false None Stub.fresh
           [Stub.hello; Stub.wordless; Stub.bye]).
  reflexivity.
Defined.


Section ChannelRuns.
Context {Audio ModelState : Type}.
Variable transcribe :
  ModelState -> Audio -> TranscribeService.transcribe_kwargs ->
  result (list TranscribeService.Segment) * ModelState.

Import TranscribeService.



End ChannelRuns.

(** ** Text helpers of [utils.py] *)

Lemma chars_of_chars (l : list ascii) :
  list_ascii_of_string (string_of_list_ascii l) = l.
Proof. apply list_ascii_of_string_of_list_ascii. Qed.

Lemma lstrip_chars_suffix (l : list ascii) :
  exists pre, l = pre ++ lstrip_chars l.
Proof.
  induction l as [|c l [pre IH]]; [exists []; reflexivity|].
  cbn [lstrip_chars]. destruct (is_space c).
  - exists (c :: pre). cbn. rewrite <- IH. reflexivity.
  - exists []. reflexivity.
Qed.

Lemma lstrip_chars_head (l : list ascii) (c : ascii) :
  head (lstrip_chars l) = Some c -> is_space c = false.
Proof.
  induction l as [|d l IH]; [discriminate|].
  cbn [lstrip_chars]. destruct (is_space d) eqn:Hd; [exact IH|].
  intros [= <-]. exact Hd.
Qed.

Lemma strip_chars_infix (l : list ascii) :
  exists pre post, l = pre ++ strip_chars l ++ post.
Proof.
  unfold strip_chars.
  destruct (lstrip_chars_suffix l) as [pre Hpre].
  destruct (lstrip_chars_suffix (reverse (lstrip_chars l))) as [pre2 Hpre2].
  exists pre, (reverse pre2).
  rewrite <- reverse_app, <- Hpre2, reverse_involutive. exact Hpre.
Qed.

Lemma strip_chars_ends (l : list ascii) :
  (forall c, head (strip_chars l) = Some c -> is_space c = false)
  /\ (forall c, last (strip_chars l) = Some c -> is_space c = false).
Proof.
  unfold strip_chars.
  destruct (lstrip_chars_suffix (reverse (lstrip_chars l))) as [pre2 Hpre2].
  set (m := lstrip_chars l) in *.
  set (r := lstrip_chars (reverse m)) in *.
  split.
  - intros c Hc. apply (lstrip_chars_head l c). fold m.
    apply (f_equal reverse) in Hpre2.
    rewrite reverse_involutive, reverse_app in Hpre2. rewrite Hpre2.
    destruct (reverse r) as [|x xs]; [discriminate|]. exact Hc.
  - intros c Hc. rewrite last_reverse in Hc.
    apply (lstrip_chars_head (reverse m) c Hc).
Qed.

Lemma strip_chars_idempotent (l : list ascii) :
  strip_chars (strip_chars l) = strip_chars l.
Proof.
  destruct (strip_chars_ends l) as [Hh Hl]. apply strip_chars_fixed; assumption.
Qed.

Lemma strip_idempotent (s : string) : strip (strip s) = strip s.
Proof.
  unfold strip. rewrite chars_of_chars, strip_chars_idempotent. reflexivity.
Qed.

Lemma strip_chars_nil (l : list ascii) :
  strip_chars l = [] <-> Forall (fun c => is_space c = true) l.
Proof.
  assert (Hl : forall l, lstrip_chars l = [] <-> Forall (fun c => is_space c = true) l).
  { clear l. induction l as [|c l IH]; [split; [constructor | reflexivity]|].
    cbn [lstrip_chars]. destruct (is_space c) eqn:Hc.
    - rewrite IH. split; [intros H; constructor; assumption|].
      intros H. apply Forall_cons in H as [_ H]. exact H.
    - split; [discriminate|]. intros H. apply Forall_cons in H as [H _]. congruence. }
  unfold strip_chars. split.
  - intros H. apply (f_equal reverse) in H. rewrite reverse_involutive in H.
    cbn in H. apply Hl in H.
    destruct (lstrip_chars_suffix l) as [pre Hpre].
    destruct (lstrip_chars l) as [|c m] eqn:Hm; [apply Hl, Hm|].
    exfalso. apply Forall_reverse in H. rewrite reverse_involutive in H.
    apply Forall_cons in H as [Hc _].
    pose proof (lstrip_chars_head l c) as Hh. rewrite Hm in Hh.
    specialize (Hh eq_refl). congruence.
  - intros H. apply Hl in H. rewrite H. reflexivity.
Qed.

(** X13.  [get_segment_timestamp_anchor] returns a time of the segment:
    for every option the anchor lies between start and end when start is
    not after end; an option other than ["end"] and ["mid"] gives the
    start. *)
Theorem anchor_within (start end_ : Q) (option : string) :
  (start <= end_)%Q ->
  (start <= Utils.get_segment_timestamp_anchor start end_ option)%Q
  /\ (Utils.get_segment_timestamp_anchor start end_ option <= end_)%Q
  /\ (option <> "end" -> option <> "mid" ->
      Utils.get_segment_timestamp_anchor start end_ option = start).
Proof.
  intros Hle. unfold Utils.get_segment_timestamp_anchor.
  destruct (String.eqb option "end") eqn:He.
  - apply String.eqb_eq in He. split; [exact Hle|]. split; [apply Qle_refl|].
    congruence.
  - destruct (String.eqb option "mid") eqn:Hm.
    + apply String.eqb_eq in Hm. split; [stamp_arith|]. split; [stamp_arith|].
      congruence.
    + split; [apply Qle_refl|]. split; [exact Hle | reflexivity].
Qed.

Lemma anchor_within_witness :
  (1 <= Utils.get_segment_timestamp_anchor 1 (5 # 2) "mid")%Q
  /\ (Utils.get_segment_timestamp_anchor 1 (5 # 2) "mid" <= 5 # 2)%Q
  /\ ("mid" <> "end" -> "mid" <> "mid" ->
      Utils.get_segment_timestamp_anchor 1 (5 # 2) "mid" = 1%Q).
Proof. apply (anchor_within 1 (5 # 2) "mid"). discriminate. Defined.

Lemma sub_spaces_go_nil_blank (b : bool) (l : list ascii) :
  Forall (fun c => is_space c = true) (Utils.sub_spaces_go [] b l)
  <-> Forall (fun c => is_space c = true) l.
Proof.
  revert b. induction l as [|c l IH]; intros b; [reflexivity|].
  cbn [Utils.sub_spaces_go]. destruct (is_space c) eqn:Hc.
  - assert (Hrun : (if b then Utils.sub_spaces_go [] true l
                    else [] ++ Utils.sub_spaces_go [] true l)
                   = Utils.sub_spaces_go [] true l) by (destruct b; reflexivity).
    rewrite Hrun, IH. split; [intros H; constructor; assumption|].
    intros H. apply Forall_cons in H as [_ H]. exact H.
  - split; intros H; apply Forall_cons in H as [H _]; congruence.
Qed.

Lemma replace_dot_blank (l : list ascii) :
  Forall (fun c => is_space c = true) (Utils.replace_go ["."%char] [] 0 l)
  <-> Forall (fun c => c = "."%char \/ is_space c = true) l.
Proof.
  induction l as [|c l IH]; [split; constructor|].
  cbn [Utils.replace_go Utils.starts_with length Nat.sub].
  destruct (Ascii.eqb "." c) eqn:Hc; cbn [andb app].
  - apply Ascii.eqb_eq in Hc. subst c. rewrite IH.
    split; [intros H; constructor; [left; reflexivity | exact H]|].
    intros H. apply Forall_cons in H as [_ H]. exact H.
  - apply Ascii.eqb_neq in Hc. split; intros H; apply Forall_cons in H as [Hh Ht];
      constructor.
    + right. exact Hh.
    + apply IH, Ht.
    + destruct Hh as [->|Hh]; [congruence | exact Hh].
    + apply IH, Ht.
Qed.

(** X14.  [is_empty_string] is true exactly of the texts made of periods
    and whitespace only (the empty text among them). *)
Theorem is_empty_string_spec (text : string) :
  Utils.is_empty_string text = true
  <-> Forall (fun c => c = "."%char \/ is_space c = true)
        (list_ascii_of_string text).
Proof.
  unfold Utils.is_empty_string, Utils.replace, Utils.sub_spaces, strip.
  rewrite !chars_of_chars. cbn [list_ascii_of_string Utils.replace_chars].
  rewrite <- replace_dot_blank, <- (sub_spaces_go_nil_blank false), <- strip_chars_nil.
  destruct (strip_chars _) as [|c l]; cbn [string_of_list_ascii truthy].
  - split; reflexivity.
  - split; discriminate.
Qed.

(** ** [format_punct] *)

Lemma first_char_error (text : string) :
  Utils.first_char text = Err (Builtin IndexError) <-> text = "".
Proof.
  unfold Utils.first_char. destruct text as [|c text]; cbn.
  - split; reflexivity.
  - split; discriminate.
Qed.

Lemma last_char_cons (c : ascii) (text : string) :
  exists d, Utils.last_char (String c text) = Ok d.
Proof.
  unfold Utils.last_char. cbn [list_ascii_of_string].
  destruct (last (c :: list_ascii_of_string text)) as [d|] eqn:Hl.
  - exists d. reflexivity.
  - apply last_None in Hl. discriminate.
Qed.

Lemma format_punct_cases (text : string) :
  (strip text = "" /\ Utils.format_punct text = Err (Builtin IndexError))
  \/ (strip text <> ""
      /\ exists body,
           Utils.format_punct text
           = Ok (strip (Utils.sub_lone_i (Utils.sub_spaces " " body)))).
Proof.
  unfold Utils.format_punct.
  destruct (strip text) as [|c rest] eqn:Hs.
  - left. split; reflexivity.
  - right. split; [discriminate|].
    cbn [Utils.first_char list_ascii_of_string mbind result_bind Utils.from_1].
    destruct (Utils.is_lower c).
    + destruct (last_char_cons (Utils.upper c) rest) as [d Hd].
      rewrite Hd. cbn [mbind result_bind]. eexists. reflexivity.
    + destruct (last_char_cons c rest) as [d Hd].
      rewrite Hd. cbn [mbind result_bind]. eexists. reflexivity.
Qed.

(** X15.  [format_punct] fails, with the [IndexError] of [text[0]],
    exactly on the texts that are empty or made of whitespace only; on
    every other text it returns. *)
Theorem format_punct_blank (text : string) :
  (Utils.format_punct text = Err (Builtin IndexError)
     <-> Forall (fun c => is_space c = true) (list_ascii_of_string text))
  /\ ((exists out, Utils.format_punct text = Ok out)
      <-> ~ Forall (fun c => is_space c = true) (list_ascii_of_string text)).
Proof.
  assert (Hblank : strip text = ""
                   <-> Forall (fun c => is_space c = true)
                         (list_ascii_of_string text)).
  { rewrite <- strip_chars_nil. unfold strip.
    destruct (strip_chars (list_ascii_of_string text)) as [|c l];
      cbn [string_of_list_ascii]; split; congruence. }
  destruct (format_punct_cases text) as [[Hs Hrun]|[Hs (body & Hrun)]];
    rewrite Hrun.
  - split; split.
    + intros _. apply Hblank, Hs.
    + reflexivity.
    + intros (out & Ho). discriminate.
    + intros Hn. exfalso. apply Hn, Hblank, Hs.
  - split; split.
    + discriminate.
    + intros H. exfalso. apply Hs, Hblank, H.
    + intros _ H. apply Hs, Hblank, H.
    + intros _. eexists. reflexivity.
Qed.

Lemma sub_spaces_go_spaced (b : bool) (l : list ascii) :
  spaced (Utils.sub_spaces_go [" "%char] b l)
  /\ (b = true ->
      forall c, head (Utils.sub_spaces_go [" "%char] b l) = Some c ->
                is_space c = false).
Proof.
  revert b. induction l as [|c l IH]; intros b.
  - split; [exact I | discriminate].
  - cbn [Utils.sub_spaces_go]. destruct (is_space c) eqn:Hc.
    + destruct (IH true) as [Hsp Hhead]. destruct b.
      * split; [exact Hsp | intros _; apply Hhead; reflexivity].
      * split; [|discriminate]. cbn [app spaced]. split; [|exact Hsp].
        intros _. split; [reflexivity|].
        destruct (Utils.sub_spaces_go [" "%char] true l) as [|d tl] eqn:Hd;
          [exact I|]. apply (Hhead eq_refl d). reflexivity.
    + destruct (IH false) as [Hsp _]. split.
      * cbn [spaced]. split; [congruence | exact Hsp].
      * intros _ d [= <-]. exact Hc.
Qed.

Lemma sub_lone_i_go_spaces (p : bool) (l : list ascii) :
  Forall2 (fun c d => is_space d = is_space c /\ (is_space c = true -> d = c))
    l (Utils.sub_lone_i_go p l).
Proof.
  revert p. induction l as [|c l IH]; intros p; [constructor|].
  cbn [Utils.sub_lone_i_go]. constructor; [|apply IH].
  destruct (Ascii.eqb c "i" && negb p
            && negb match l with d :: _ => Utils.is_word d | [] => false end)
    eqn:Hcond; [|split; reflexivity].
  apply andb_true_iff in Hcond as [Hcond _].
  apply andb_true_iff in Hcond as [Hi _].
  apply Ascii.eqb_eq in Hi. subst c.
  split; [reflexivity|]. intros H. vm_compute in H. discriminate H.
Qed.

Lemma spaced_same_spaces (l l' : list ascii) :
  Forall2 (fun c d => is_space d = is_space c /\ (is_space c = true -> d = c)) l l' ->
  spaced l -> spaced l'.
Proof.
  induction 1 as [|c d l l' [Hs Heq] Hall IH]; [auto|].
  cbn [spaced]. intros [Hc Htl]. split; [|apply IH, Htl].
  intros Hd. rewrite Hs in Hd. destruct (Hc Hd) as [-> Hnext].
  split; [apply (Heq Hd)|].
  destruct Hall as [|c2 d2 l2 l2' [Hs2 _] _]; [exact I|].
  rewrite Hs2. exact Hnext.
Qed.

Lemma spaced_app_r (pre l : list ascii) : spaced (pre ++ l) -> spaced l.
Proof.
  induction pre as [|c pre IH]; [auto|]. cbn [app spaced]. intros [_ H]. auto.
Qed.

Lemma spaced_app_l (l post : list ascii) : spaced (l ++ post) -> spaced l.
Proof.
  induction l as [|c l IH]; [intros _; exact I|].
  cbn [app spaced]. intros [Hc Htl]. split; [|apply IH, Htl].
  intros Hs. destruct (Hc Hs) as [-> Hnext]. split; [reflexivity|].
  destruct l as [|d l]; [exact I | exact Hnext].
Qed.

(** X16.  What [format_punct] returns has no whitespace at either end, no
    whitespace character other than the space, and no two spaces in a
    row. *)
Theorem format_punct_spacing (text out : string) :
  Utils.format_punct text = Ok out ->
  strip out = out /\ spaced (list_ascii_of_string out).
Proof.
  intros Hrun.
  destruct (format_punct_cases text) as [[_ Herr]|[_ (body & Hok)]];
    [congruence|].
  rewrite Hok in Hrun. injection Hrun as <-.
  split; [apply strip_idempotent|].
  unfold strip at 1. rewrite chars_of_chars.
  destruct (strip_chars_infix
              (list_ascii_of_string (Utils.sub_lone_i (Utils.sub_spaces " " body))))
    as (pre & post & Hinfix).
  apply (spaced_app_l _ post), (spaced_app_r pre). rewrite <- Hinfix.
  unfold Utils.sub_lone_i, Utils.sub_spaces. rewrite !chars_of_chars.
  eapply spaced_same_spaces; [apply sub_lone_i_go_spaces|].
  apply sub_spaces_go_spaced.
Qed.

Lemma format_punct_spacing_witness :
  strip "I think I am ok?" = "I think I am ok?"
  /\ spaced (list_ascii_of_string "I think I am ok?").
Proof.
  apply (format_punct_spacing "  i think i am ... ok ?" "I think I am ok?").
  reflexivity.
Defined.

(** ** Timestamps as text *)

Lemma Qfloor_unique (x : Q) (m : Z) :
  (inject_Z m <= x)%Q -> (x < inject_Z (m + 1))%Q -> Qfloor x = m.
Proof.
  intros Hle Hlt.
  pose proof (Qfloor_le x) as H1. pose proof (Qlt_floor x) as H2.
  assert (Ha : (inject_Z (Qfloor x) < inject_Z (m + 1))%Q) by lra.
  assert (Hb : (inject_Z m < inject_Z (Qfloor x + 1))%Q) by lra.
  rewrite <- Zlt_Qlt in Ha, Hb. lia.
Qed.

Lemma Qfloor_sub_Z (x : Q) (z : Z) :
  Qfloor (x - inject_Z z) = (Qfloor x - z)%Z.
Proof.
  apply Qfloor_unique.
  - pose proof (Qfloor_le x) as H1.
    unfold Z.sub. rewrite inject_Z_plus, inject_Z_opp. lra.
  - pose proof (Qlt_floor x) as H2.
    replace (Qfloor x - z + 1)%Z with ((Qfloor x + 1) + - z)%Z by lia.
    rewrite inject_Z_plus, inject_Z_opp. lra.
Qed.

Lemma Qfloor_div_pos (x : Q) (k : positive) :
  Qfloor (x / inject_Z (Zpos k)) = (Qfloor x / Zpos k)%Z.
Proof.
  destruct x as [n d]. unfold Qdiv, Qinv, Qmult, inject_Z, Qfloor.
  cbn [Qnum Qden]. rewrite Z.mul_1_r, Pos2Z.inj_mul.
  rewrite Z.div_div by lia. reflexivity.
Qed.

Lemma py_int_Z (z : Z) : Utils.py_int (inject_Z z) = z.
Proof.
  unfold Utils.py_int. destruct (Qle_bool 0 (inject_Z z));
    [apply Qfloor_Z | apply Qceiling_Z].
Qed.

Lemma divmod_floor (x : Q) (k : positive) :
  exists r,
    Utils.divmod x (inject_Z (Zpos k)) = (inject_Z (Qfloor x / Zpos k), r)
    /\ Qfloor r = (Qfloor x mod Zpos k)%Z
    /\ (0 <= r)%Q.
Proof.
  unfold Utils.divmod. rewrite Qfloor_div_pos. eexists. split; [reflexivity|].
  assert (Hfl : Qfloor (x - inject_Z (Qfloor x / Zpos k) * inject_Z (Zpos k))
                = (Qfloor x mod Zpos k)%Z).
  { rewrite <- inject_Z_mult, Qfloor_sub_Z, Z.mod_eq by lia. lia. }
  split; [exact Hfl|].
  pose proof (Qfloor_le (x - inject_Z (Qfloor x / Zpos k) * inject_Z (Zpos k)))
    as Hle.
  rewrite Hfl in Hle.
  assert (H0 : (0 <= Qfloor x mod Zpos k)%Z) by (apply Z.mod_pos_bound; lia).
  rewrite Zle_Qle in H0. change (inject_Z 0) with 0%Q in H0. lra.
Qed.

Lemma convert_s_to_hms_eq (timestamp : Q) :
  Utils._convert_s_to_hms timestamp
  = Utils.format_02 (Qfloor timestamp / 3600) +:+ ":"
    +:+ Utils.format_02 (Qfloor timestamp mod 3600 / 60) +:+ ":"
    +:+ Utils.format_02 (Qfloor timestamp mod 60) +:+ ".000".
Proof.
  unfold Utils._convert_s_to_hms.
  change 3600%Q with (inject_Z (Zpos 3600)).
  change 60%Q with (inject_Z (Zpos 60)).
  destruct (divmod_floor timestamp 3600) as (r1 & Hd1 & Hf1 & _).
  rewrite Hd1.
  destruct (divmod_floor r1 60) as (r2 & Hd2 & Hf2 & Hpos2).
  rewrite Hd2, !py_int_Z, Hf1.
  assert (Hsec : Utils.py_int r2 = (Qfloor timestamp mod 60)%Z).
  { unfold Utils.py_int.
    rewrite (proj2 (Qle_bool_iff 0 r2) Hpos2), Hf2, Hf1.
    apply Z.mod_mod_divide. exists 60%Z. reflexivity. }
  rewrite Hsec. reflexivity.
Qed.

(** X17.  For a time that is not negative, [_convert_s_to_hms] writes the
    whole seconds of the time as hours, minutes below 60 and seconds
    below 60, each on at least two digits, and always [.000]: the
    fraction of a second is dropped. *)
Theorem convert_s_to_hms_floor (timestamp : Q) :
  (0 <= timestamp)%Q ->
  let n := Qfloor timestamp in
  Utils._convert_s_to_hms timestamp
  = Utils.format_02 (n / 3600) +:+ ":" +:+ Utils.format_02 (n mod 3600 / 60)
    +:+ ":" +:+ Utils.format_02 (n mod 60) +:+ ".000"
  /\ (0 <= n / 3600)%Z
  /\ (0 <= n mod 3600 / 60 < 60)%Z
  /\ (0 <= n mod 60 < 60)%Z
  /\ (n / 3600 * 3600 + n mod 3600 / 60 * 60 + n mod 60 = n)%Z
  /\ Utils._convert_s_to_hms timestamp = Utils._convert_s_to_hms (inject_Z n).
Proof.
  intros Hpos n.
  assert (Hn : (0 <= n)%Z).
  { change 0%Z with (Qfloor 0). apply Qfloor_resp_le, Hpos. }
  split; [apply convert_s_to_hms_eq|].
  split; [apply Z.div_pos; lia|].
  split; [pose proof (Z.mod_pos_bound n 3600 ltac:(lia));
          split; [apply Z.div_pos; lia | apply Z.div_lt_upper_bound; lia]|].
  split; [apply Z.mod_pos_bound; lia|].
  split.
  - pose proof (Z.div_mod n 3600 ltac:(lia)) as H1.
    pose proof (Z.div_mod (n mod 3600) 60 ltac:(lia)) as H2.
    assert (H3 : ((n mod 3600) mod 60 = n mod 60)%Z).
    { apply Z.mod_mod_divide. exists 60%Z. reflexivity. }
    lia.
  - rewrite (convert_s_to_hms_eq (inject_Z n)), Qfloor_Z.
    apply convert_s_to_hms_eq.
Qed.

Lemma convert_s_to_hms_floor_witness :
  Utils._convert_s_to_hms (37259 # 10)
  = Utils.format_02 (Qfloor (37259 # 10) / 3600) +:+ ":"
    +:+ Utils.format_02 (Qfloor (37259 # 10) mod 3600 / 60) +:+ ":"
    +:+ Utils.format_02 (Qfloor (37259 # 10) mod 60) +:+ ".000"
  /\ (0 <= Qfloor (37259 # 10) / 3600)%Z
  /\ (0 <= Qfloor (37259 # 10) mod 3600 / 60 < 60)%Z
  /\ (0 <= Qfloor (37259 # 10) mod 60 < 60)%Z
  /\ (Qfloor (37259 # 10) / 3600 * 3600 + Qfloor (37259 # 10) mod 3600 / 60 * 60
      + Qfloor (37259 # 10) mod 60 = Qfloor (37259 # 10))%Z
  /\ Utils._convert_s_to_hms (37259 # 10)
     = Utils._convert_s_to_hms (inject_Z (Qfloor (37259 # 10))).
Proof. apply (convert_s_to_hms_floor (37259 # 10)). discriminate. Defined.

Example convert_s_to_hms_example :
  Utils._convert_s_to_hms (37259 # 10) = "01:02:05.000".
Proof. reflexivity. Qed.

(** ** Conversion targets and their validation *)

Lemma validate_timestamps_values_ok (value : string) :
  (value = "hms" \/ value = "ms" \/ value = "s")
  <-> Models.validate_timestamps_values value = Ok value.
Proof.
  unfold Models.validate_timestamps_values.
  destruct (bool_decide (value ∈ ["hms"; "ms"; "s"])) eqn:Hd.
  - apply bool_decide_eq_true in Hd.
    rewrite !elem_of_cons, elem_of_nil in Hd. split; [reflexivity | tauto].
  - apply bool_decide_eq_false in Hd.
    rewrite !elem_of_cons, elem_of_nil in Hd. split; [tauto | discriminate].
Qed.

Section Conversion.
Variable py_round : Q -> option Z -> Q.

(** X18.  [convert_timestamp] returns for the targets ["ms"], ["hms"] and
    ["s"], which are the values [validate_timestamps_values] accepts,
    and for no other: every other target raises the [ValueError] that
    names it.  The target ["hms"] gives the text of [_convert_s_to_hms]
    whatever the number of digits, the other two give a number. *)
Theorem convert_timestamp_targets (timestamp : Q) (target : string)
    (round_digits : option Z) :
  ((exists out, Utils.convert_timestamp py_round timestamp target round_digits
                = Ok out)
   <-> Models.validate_timestamps_values target = Ok target)
  /\ (Models.validate_timestamps_values target <> Ok target ->
      Utils.convert_timestamp py_round timestamp target round_digits
      = Err (Raised ("Invalid conversion target: " +:+ target
                     +:+ ". Valid targets are: ms, hms, s.")))
  /\ (target = "hms" ->
      Utils.convert_timestamp py_round timestamp target round_digits
      = Ok (Utils.Text (Utils._convert_s_to_hms timestamp)))
  /\ (target = "ms" ->
      Utils.convert_timestamp py_round timestamp target round_digits
      = Ok (Utils.Number (py_round (timestamp * 1000) round_digits)))
  /\ (target = "s" ->
      Utils.convert_timestamp py_round timestamp target round_digits
      = Ok (Utils.Number (py_round timestamp round_digits))).
Proof.
  rewrite <- validate_timestamps_values_ok.
  unfold Utils.convert_timestamp, Utils._convert_s_to_ms.
  destruct (String.eqb target "ms") eqn:Hms.
  { apply String.eqb_eq in Hms. subst target.
    split; [split; [auto | intros _; eexists; reflexivity]|].
    split; [intros H; exfalso; apply H; auto|].
    split; [discriminate|]. split; [reflexivity | discriminate]. }
  destruct (String.eqb target "hms") eqn:Hhms.
  { apply String.eqb_eq in Hhms. subst target.
    split; [split; [auto | intros _; eexists; reflexivity]|].
    split; [intros H; exfalso; apply H; auto|].
    split; [reflexivity|]. split; discriminate. }
  destruct (String.eqb target "s") eqn:Hs.
  { apply String.eqb_eq in Hs. subst target.
    split; [split; [auto | intros _; eexists; reflexivity]|].
    split; [intros H; exfalso; apply H; auto|].
    split; [discriminate|]. split; [discriminate | reflexivity]. }
  apply String.eqb_neq in Hms, Hhms, Hs.
  split; [split; [intros (out & Ho); discriminate | intros [H|[H|H]]; congruence]|].
  split; [reflexivity|].
  split; [congruence|]. split; congruence.
Qed.
End Conversion.

(** ** [format_segments] *)

Section Formatting.
Variable py_round : Q -> option Z -> Q.

Lemma format_segment_outcome (word_timestamps : bool)
    (segment : TranscribeService.Segment) :
  (word_timestamps = true /\ TranscribeService.seg_words segment = None
   /\ Utils.format_segment py_round word_timestamps segment
      = Err (Builtin TypeError))
  \/ ((word_timestamps = true -> TranscribeService.seg_words segment <> None)
      /\ exists d,
           Utils.format_segment py_round word_timestamps segment = Ok d
           /\ formatted_from py_round word_timestamps segment d).
Proof.
  unfold Utils.format_segment. destruct word_timestamps.
  - destruct (TranscribeService.seg_words segment) as [words|] eqn:Hw.
    + right. split; [discriminate|]. eexists. split; [reflexivity|].
      unfold formatted_from.
      cbn [Utils.fs_start Utils.fs_end Utils.fs_text Utils.fs_words].
      rewrite strip_idempotent.
      do 4 (split; [reflexivity|]). split; [discriminate|].
      intros _. exists words. auto.
    + left. auto.
  - right. split; [discriminate|]. eexists. split; [reflexivity|].
    unfold formatted_from.
    cbn [Utils.fs_start Utils.fs_end Utils.fs_text Utils.fs_words].
    rewrite strip_idempotent.
    do 4 (split; [reflexivity|]). split; [reflexivity | discriminate].
Qed.

Lemma format_segments_loop_outcome (word_timestamps : bool)
    (segments : list TranscribeService.Segment)
    (acc : list Utils.formatted_segment) :
  (Exists (fun s => TranscribeService.seg_words s = None) segments
   /\ word_timestamps = true
   /\ Utils.format_segments_loop py_round word_timestamps segments acc
      = Err (Builtin TypeError))
  \/ ((word_timestamps = true ->
       Forall (fun s => TranscribeService.seg_words s <> None) segments)
      /\ exists out,
           Utils.format_segments_loop py_round word_timestamps segments acc
           = Ok (acc ++ out)
           /\ Forall2 (formatted_from py_round word_timestamps) segments out).
Proof.
  revert acc. induction segments as [|s segments IH]; intros acc.
  - right. split; [constructor|]. exists []. rewrite app_nil_r.
    split; [reflexivity | constructor].
  - cbn [Utils.format_segments_loop].
    destruct (format_segment_outcome word_timestamps s)
      as [(Hwt & Hw & Herr)|(Hs & d & Hd & Hfrom)].
    + left. rewrite Herr. split; [left; exact Hw|]. split; [exact Hwt | reflexivity].
    + rewrite Hd. cbn [mbind result_bind].
      destruct (IH (acc ++ [d])) as [(Hex & Hwt & Herr)|(Hall & out & Hout & Hf2)].
      * left. split; [right; exact Hex|]. split; [exact Hwt | exact Herr].
      * right. split; [intros Hwt; constructor; auto|].
        exists (d :: out). rewrite Hout, <- app_assoc.
        split; [reflexivity|]. constructor; assumption.
Qed.

(** X19.  [format_segments] returns one dictionary per segment, in order,
    with the start and end of the segment and its text without
    whitespace at either end; the dictionary has the words of the segment
    (their text stripped too) when word timestamps are asked for and no
    ["words"] entry otherwise.  It fails, with [TypeError], exactly when
    word timestamps are asked for and some segment has no list of words. *)
Theorem format_segments_spec (segments : list TranscribeService.Segment)
    (word_timestamps : bool) :
  ((exists out, Utils.format_segments py_round segments word_timestamps = Ok out)
   <-> (word_timestamps = true ->
        Forall (fun s => TranscribeService.seg_words s <> None) segments))
  /\ (forall out,
        Utils.format_segments py_round segments word_timestamps = Ok out ->
        Forall2 (formatted_from py_round word_timestamps) segments out)
  /\ (forall e,
        Utils.format_segments py_round segments word_timestamps = Err e ->
        e = Builtin TypeError).
Proof.
  unfold Utils.format_segments.
  destruct (format_segments_loop_outcome word_timestamps segments [])
    as [(Hex & Hwt & Herr)|(Hall & out & Hout & Hfrom)].
  - rewrite Herr. split; [split|split].
    + intros (out & Ho). discriminate.
    + intros Hall. exfalso. specialize (Hall Hwt).
      apply Exists_exists in Hex as (s & Hin & Hs).
      rewrite Forall_forall in Hall. apply (Hall s Hin Hs).
    + intros out Ho. discriminate.
    + intros e [= <-]. reflexivity.
  - cbn [app] in Hout. rewrite Hout. split; [split|split].
    + intros _. exact Hall.
    + intros _. exists out. reflexivity.
    + intros out' [= <-]. exact Hfrom.
    + intros e He. discriminate.
Qed.
End Formatting.

(** ** What the first phase does to its argument *)






